(** * QR Error Correction Tester: the permalink codec, the mask geometry,
      the verification classifier and the effect pipeline of [App.tsx]

    The program is a single React component.  Its pure helpers ([clamp],
    [parseNumber], [parseErrorLevel], [parsePermalinkState],
    [createPermalink], the body of [applyMaskAndTest]) are embedded as
    functions; its three [useEffect] hooks are embedded as a transition
    system over an explicit world (component state, pending promises with
    their [active] flags, the dependencies seen by the last effect flush).

    The platform the helpers call into is modelled from its standards:
    strings are sequences of UTF-16 code units, [Number] follows
    StringToNumber of ECMA-262 with round-to-nearest-even to binary64,
    [URLSearchParams] follows the application/x-www-form-urlencoded parser
    and serializer of the URL standard, including the conversion of
    unpaired surrogates to U+FFFD and the lossy UTF-8 decoder. *)

From Stdlib Require Import ZArith QArith Qround Qminmax.
From Stdlib Require Import List String Ascii Bool Lia.
Import ListNotations.

Local Open Scope Z_scope.

(* ===================================================================== *)
(** * JavaScript strings *)
(* ===================================================================== *)

Module JsString.

(** A string value is a finite sequence of 16-bit code units. *)
Definition t := list Z.

(** The string denoted by an ASCII literal of the source. *)
Definition lit (s : string) : t :=
  map (fun a => Z.of_N (N_of_ascii a)) (list_ascii_of_string s).

Fixpoint eqb (a b : t) : bool :=
  match a, b with
  | [], [] => true
  | x :: a', y :: b' => (x =? y) && eqb a' b'
  | _, _ => false
  end.

(** Truthiness of a string: only the empty string is falsy. *)
Definition truthy (s : t) : bool :=
  match s with [] => false | _ :: _ => true end.

(** WhiteSpace and LineTerminator code points of ECMA-262 (all of them lie
    in the Basic Multilingual Plane, so they are single code units):
    TAB, LF, VT, FF, CR, SP, NBSP, the Zs category, LS, PS and ZWNBSP. *)
Definition is_white_space (c : Z) : bool :=
  ((9 <=? c) && (c <=? 13))
  || (c =? 32) || (c =? 160) || (c =? 0x1680)
  || ((0x2000 <=? c) && (c <=? 0x200A))
  || (c =? 0x2028) || (c =? 0x2029) || (c =? 0x202F)
  || (c =? 0x205F) || (c =? 0x3000) || (c =? 0xFEFF).

Fixpoint trimStart (s : t) : t :=
  match s with
  | c :: s' => if is_white_space c then trimStart s' else s
  | [] => []
  end.

Definition trimEnd (s : t) : t := rev (trimStart (rev s)).

(** [String.prototype.trim]. *)
Definition trim (s : t) : t := trimEnd (trimStart s).

End JsString.

Abbreviation jsstring := JsString.t.
Notation "'js' s" := (JsString.lit s) (at level 1, s at level 0, only parsing).

(* ===================================================================== *)
(** * Numbers *)
(* ===================================================================== *)

(** [Math.min(max, Math.max(min, value))] on the integers the program clamps
    (rounded values against integer bounds). *)
Definition clamp (value min max : Z) : Z := Z.min max (Z.max min value).

(** [Math.round] of a finite value: the nearest integer, a tie going up. *)
Definition Math_round (x : Q) : Z := Qfloor (x + (1 # 2)).

Module Number.

(** A Number value.  A finite binary64 value is kept as the rational it
    denotes; the two zeros are not told apart (the program never divides by
    one, and [String], [Math.round], [Math.min] and [Math.max] against
    finite bounds give the same integer for both). *)
Inductive t :=
| NaN
| Infinity (negative : bool)
| Finite (q : Q).

(** ** Rounding a positive rational to binary64, ties to even *)

(** Floor of the binary logarithm of [n / d], for positive [n] and [d]. *)
Definition floor_log2_ratio (n d : Z) : Z :=
  let l := Z.log2 n - Z.log2 d in
  let reaches := if 0 <=? l then d * 2 ^ l <=? n else d <=? n * 2 ^ (- l) in
  if reaches then l else l - 1.

Definition round_half_even (num den : Z) : Z :=
  let qt := num / den in
  let rm := num mod den in
  if 2 * rm <? den then qt
  else if den <? 2 * rm then qt + 1
  else if Z.even qt then qt else qt + 1.

(** The binary64 value nearest to [n / d]: a 53-bit significand [m] at the
    quantum [2 ^ e], [e] never below the subnormal quantum [2 ^ -1074];
    [None] when the rounded value reaches [2 ^ 1024]. *)
Definition binary64_of_ratio (n d : Z) : option Q :=
  let e := Z.max (floor_log2_ratio n d - 52) (-1074) in
  if 0 <=? e then
    let m := round_half_even n (d * 2 ^ e) in
    if 2 ^ 1024 <=? m * 2 ^ e then None else Some (inject_Z (m * 2 ^ e))
  else
    let m := round_half_even (n * 2 ^ (- e)) d in
    Some (m # Z.to_pos (2 ^ (- e))).

(** The Number value of the mathematical value [n / d] with a sign. *)
Definition of_ratio (negative : bool) (n d : Z) : t :=
  if n =? 0 then Finite 0
  else match binary64_of_ratio n d with
       | None => Infinity negative
       | Some q => Finite (if negative then - q else q)
       end.

(** ** StringToNumber *)

Definition is_digit (c : Z) : bool := (48 <=? c) && (c <=? 57).

Definition digit_of (c : Z) : option Z :=
  if (48 <=? c) && (c <=? 57) then Some (c - 48)
  else if (97 <=? c) && (c <=? 102) then Some (c - 87)
  else if (65 <=? c) && (c <=? 70) then Some (c - 55)
  else None.

Fixpoint span (p : Z -> bool) (s : jsstring) : jsstring * jsstring :=
  match s with
  | c :: s' =>
      if p c then let (a, b) := span p s' in (c :: a, b) else ([], s)
  | [] => ([], [])
  end.

(** The value of a run of digits in a radix; [None] when a character is
    not a digit of that radix. *)
Fixpoint digits_value (radix acc : Z) (s : jsstring) : option Z :=
  match s with
  | [] => Some acc
  | c :: s' =>
      match digit_of c with
      | Some v =>
          if v <? radix then digits_value radix (radix * acc + v) s' else None
      | None => None
      end
  end.

(** DecimalDigits: one digit at least. *)
Definition decimal_digits (s : jsstring) : option Z :=
  match s with [] => None | _ :: _ => digits_value 10 0 s end.

(** SignedInteger. *)
Definition signed_integer (s : jsstring) : option Z :=
  match s with
  | 43 :: d => decimal_digits d
  | 45 :: d => option_map Z.opp (decimal_digits d)
  | _ => decimal_digits s
  end.

(** ExponentPart, optional, up to the end of the literal. *)
Definition exponent_part (s : jsstring) : option Z :=
  match s with
  | [] => Some 0
  | c :: s' => if (c =? 101) || (c =? 69) then signed_integer s' else None
  end.

(** The mathematical value [m * 10 ^ e], rounded. *)
Definition of_decimal (negative : bool) (m e : Z) : t :=
  if 0 <=? e then of_ratio negative (m * 10 ^ e) 1
  else of_ratio negative m (10 ^ (- e)).

(** StrUnsignedDecimalLiteral, the sign already read. *)
Definition unsigned_decimal (negative : bool) (s : jsstring) : t :=
  if JsString.eqb s (js "Infinity") then Infinity negative
  else
    let (ip, r1) := span is_digit s in
    let (fp, r2) := match r1 with
                    | 46 :: r => span is_digit r
                    | _ => ([], r1)
                    end in
    match ip ++ fp with
    | [] => NaN
    | _ :: _ =>
        match digits_value 10 0 (ip ++ fp), exponent_part r2 with
        | Some m, Some e =>
            of_decimal negative m (e - Z.of_nat (List.length fp))
        | _, _ => NaN
        end
    end.

(** The radix of a NonDecimalIntegerLiteral prefix character. *)
Definition radix_of_prefix (c : Z) : option Z :=
  if (c =? 120) || (c =? 88) then Some 16
  else if (c =? 111) || (c =? 79) then Some 8
  else if (c =? 98) || (c =? 66) then Some 2
  else None.

Definition StrNumericLiteral (s : jsstring) : t :=
  let decimal :=
    match s with
    | 43 :: r => unsigned_decimal false r
    | 45 :: r => unsigned_decimal true r
    | _ => unsigned_decimal false s
    end in
  match s with
  | 48 :: p :: r =>
      match radix_of_prefix p with
      | Some radix =>
          match r with
          | [] => NaN
          | _ :: _ =>
              match digits_value radix 0 r with
              | Some n => of_ratio false n 1
              | None => NaN
              end
          end
      | None => decimal
      end
  | _ => decimal
  end.

(** StringToNumber: white space stripped at both ends; the empty literal
    is [+0]. *)
Definition StringToNumber (s : jsstring) : t :=
  match JsString.trim s with
  | [] => Finite 0
  | s' => StrNumericLiteral s'
  end.

(** [Number(value)] for [value : string | null]: [null] converts to [+0]. *)
Definition Number (value : option jsstring) : t :=
  match value with
  | None => Finite 0
  | Some s => StringToNumber s
  end.

(** ** Number::toString of an integer, radix 10

    Plain decimal digits, which is what [String] yields for every integer
    of at most [2 ^ 53] in magnitude; beyond, [String] gives the shortest
    digits that read back as the same number, and the exponent form from
    [10 ^ 21] on.  The integers the program writes are the four
    percentages of the mask. *)
Fixpoint digits_of (fuel : nat) (z : Z) (acc : jsstring) : jsstring :=
  match fuel with
  | O => acc
  | S fuel' =>
      let acc' := (48 + z mod 10) :: acc in
      if z <? 10 then acc' else digits_of fuel' (z / 10) acc'
  end.

Definition toString (z : Z) : jsstring :=
  let a := Z.abs z in
  let ds := digits_of (S (Z.to_nat (Z.log2 a))) a [] in
  if z <? 0 then 45 :: ds else ds.

End Number.

(* ===================================================================== *)
(** * Encodings: UTF-16, UTF-8 and percent-encoded bytes *)
(* ===================================================================== *)

Module Encoding.

Definition is_high_surrogate (c : Z) : bool := (0xD800 <=? c) && (c <=? 0xDBFF).
Definition is_low_surrogate (c : Z) : bool := (0xDC00 <=? c) && (c <=? 0xDFFF).

(** The scalar values of a string as a USVString sees it: a surrogate pair
    is one code point, an unpaired surrogate becomes U+FFFD. *)
Fixpoint scalar_values (s : jsstring) : list Z :=
  match s with
  | [] => []
  | c :: s' =>
      if is_high_surrogate c then
        match s' with
        | d :: s'' =>
            if is_low_surrogate d
            then (0x10000 + (c - 0xD800) * 0x400 + (d - 0xDC00))
                   :: scalar_values s''
            else 0xFFFD :: scalar_values s'
        | [] => [0xFFFD]
        end
      else if is_low_surrogate c then 0xFFFD :: scalar_values s'
      else c :: scalar_values s'
  end.

Definition utf16_unit (cp : Z) : jsstring :=
  if cp <? 0x10000 then [cp]
  else [0xD800 + (cp - 0x10000) / 0x400; 0xDC00 + (cp - 0x10000) mod 0x400].

(** The string made of a sequence of scalar values. *)
Definition utf16_encode (cps : list Z) : jsstring := flat_map utf16_unit cps.

(** Conversion of a string to a USVString. *)
Definition to_usv (s : jsstring) : jsstring := utf16_encode (scalar_values s).

(** [String.prototype.isWellFormed]: 16-bit units, no unpaired surrogate. *)
Fixpoint well_formed (s : jsstring) : bool :=
  match s with
  | [] => true
  | c :: s' =>
      if is_high_surrogate c then
        match s' with
        | d :: s'' => is_low_surrogate d && well_formed s''
        | [] => false
        end
      else (0 <=? c) && (c <=? 0xFFFF) && negb (is_low_surrogate c)
           && well_formed s'
  end.

(** UTF-8 encoder, one scalar value. *)
Definition utf8_bytes (cp : Z) : list Z :=
  if cp <? 0x80 then [cp]
  else if cp <? 0x800 then [0xC0 + cp / 64; 0x80 + cp mod 64]
  else if cp <? 0x10000 then
    [0xE0 + cp / 4096; 0x80 + (cp / 64) mod 64; 0x80 + cp mod 64]
  else
    [0xF0 + cp / 262144; 0x80 + (cp / 4096) mod 64;
     0x80 + (cp / 64) mod 64; 0x80 + cp mod 64].

Definition utf8_encode (cps : list Z) : list Z := flat_map utf8_bytes cps.

(** UTF-8 decoder of the Encoding standard, errors replaced by U+FFFD.
    The state between two bytes is either idle or the code point collected
    so far, the number of continuation bytes still needed and the bounds the
    next byte has to meet. *)
Record pending := {
  code_point : Z;
  bytes_left : nat;
  lower_boundary : Z;
  upper_boundary : Z
}.

(** A byte met while idle: what it emits and the state it leaves. *)
Definition utf8_lead (b : Z) : list Z * option pending :=
  if b <=? 0x7F then ([b], None)
  else if (0xC2 <=? b) && (b <=? 0xDF) then
    ([], Some {| code_point := b mod 32; bytes_left := 1;
                 lower_boundary := 0x80; upper_boundary := 0xBF |})
  else if (0xE0 <=? b) && (b <=? 0xEF) then
    ([], Some {| code_point := b mod 16; bytes_left := 2;
                 lower_boundary := if b =? 0xE0 then 0xA0 else 0x80;
                 upper_boundary := if b =? 0xED then 0x9F else 0xBF |})
  else if (0xF0 <=? b) && (b <=? 0xF4) then
    ([], Some {| code_point := b mod 8; bytes_left := 3;
                 lower_boundary := if b =? 0xF0 then 0x90 else 0x80;
                 upper_boundary := if b =? 0xF4 then 0x8F else 0xBF |})
  else ([0xFFFD], None).

Fixpoint utf8_decode_from (st : option pending) (bytes : list Z) : list Z :=
  match bytes with
  | [] => match st with None => [] | Some _ => [0xFFFD] end
  | b :: rest =>
      match st with
      | None =>
          let (out, st') := utf8_lead b in out ++ utf8_decode_from st' rest
      | Some p =>
          if (lower_boundary p <=? b) && (b <=? upper_boundary p) then
            let cp := code_point p * 64 + b mod 64 in
            match bytes_left p with
            | S (S n) =>
                utf8_decode_from
                  (Some {| code_point := cp; bytes_left := S n;
                           lower_boundary := 0x80; upper_boundary := 0xBF |})
                  rest
            | _ => cp :: utf8_decode_from None rest
            end
          else
            (* the byte is handed back to the stream and read again *)
            let (out, st') := utf8_lead b in
            0xFFFD :: out ++ utf8_decode_from st' rest
      end
  end.

(** UTF-8 decode without BOM. *)
Definition utf8_decode (bytes : list Z) : list Z := utf8_decode_from None bytes.

(** ** application/x-www-form-urlencoded bytes *)

Definition hex_digit (d : Z) : Z := if d <? 10 then 48 + d else 55 + d.

(** Bytes the serializer leaves as they are: [*], [-], [.], [_], ASCII
    digits and letters. *)
Definition is_unreserved (b : Z) : bool :=
  (b =? 0x2A) || (b =? 0x2D) || (b =? 0x2E) || (b =? 0x5F)
  || ((0x30 <=? b) && (b <=? 0x39))
  || ((0x41 <=? b) && (b <=? 0x5A))
  || ((0x61 <=? b) && (b <=? 0x7A)).

Definition serialize_byte (b : Z) : list Z :=
  if b =? 0x20 then [0x2B]
  else if is_unreserved b then [b]
  else [0x25; hex_digit (b / 16); hex_digit (b mod 16)].

Definition serialize_bytes (bytes : list Z) : list Z :=
  flat_map serialize_byte bytes.

Fixpoint percent_decode (bytes : list Z) : list Z :=
  match bytes with
  | [] => []
  | b :: rest =>
      if b =? 0x25 then
        match rest with
        | h :: l :: rest' =>
            match Number.digit_of h, Number.digit_of l with
            | Some x, Some y => (16 * x + y) :: percent_decode rest'
            | _, _ => b :: percent_decode rest
            end
        | _ => b :: percent_decode rest
        end
      else b :: percent_decode rest
  end.

Definition plus_to_space (b : Z) : Z := if b =? 0x2B then 0x20 else b.

End Encoding.

(* ===================================================================== *)
(** * URLSearchParams *)
(* ===================================================================== *)

Module URLSearchParams.
Import Encoding.

(** The object's list of name-value pairs, in order, duplicates allowed. *)
Definition t := list (jsstring * jsstring).

Fixpoint split_on (sep : Z) (bytes : list Z) : list (list Z) :=
  match bytes with
  | [] => [[]]
  | b :: rest =>
      if b =? sep then [] :: split_on sep rest
      else match split_on sep rest with
           | h :: tl => (b :: h) :: tl
           | [] => [[b]]
           end
  end.

(** A sequence cut at its first [=]: the name, and the value (empty when
    there is no [=]). *)
Fixpoint name_value (bytes : list Z) : list Z * list Z :=
  match bytes with
  | [] => ([], [])
  | b :: rest =>
      if b =? 0x3D then ([], rest)
      else let (n, v) := name_value rest in (b :: n, v)
  end.

Definition decode_component (bytes : list Z) : jsstring :=
  utf16_encode (utf8_decode (percent_decode (map plus_to_space bytes))).

(** The urlencoded parser, on bytes. *)
Definition parse_bytes (input : list Z) : t :=
  flat_map
    (fun bytes =>
       match bytes with
       | [] => []
       | _ :: _ =>
           let (n, v) := name_value bytes in
           [(decode_component n, decode_component v)]
       end)
    (split_on 0x26 input).

(** [new URLSearchParams(init)] for a string: a leading [?] is dropped, the
    rest is UTF-8 encoded and parsed. *)
Definition of_string (init : jsstring) : t :=
  let init' := match init with 0x3F :: r => r | _ => init end in
  parse_bytes (utf8_encode (scalar_values init')).

(** [new URLSearchParams()]. *)
Definition empty : t := [].

(** [params.get(name)]: the value of the first pair with that name, or
    [null]. *)
Fixpoint get (name : jsstring) (params : t) : option jsstring :=
  match params with
  | [] => None
  | (n, v) :: rest => if JsString.eqb n name then Some v else get name rest
  end.

Definition has (name : jsstring) (params : t) : bool :=
  existsb (fun p => JsString.eqb (fst p) name) params.

Fixpoint set_first (name value : jsstring) (params : t) : t :=
  match params with
  | [] => []
  | (n, v) :: rest =>
      if JsString.eqb n name
      then (n, value)
             :: filter (fun p => negb (JsString.eqb (fst p) name)) rest
      else (n, v) :: set_first name value rest
  end.

(** [params.set(name, value)]: both arguments are USVStrings; the first
    pair with the name takes the value and the others go, or a pair is
    appended. *)
Definition set (name value : jsstring) (params : t) : t :=
  let name := to_usv name in
  let value := to_usv value in
  if has name params then set_first name value params
  else params ++ [(name, value)].

Definition serialize_component (s : jsstring) : list Z :=
  serialize_bytes (utf8_encode (scalar_values s)).

(** The urlencoded serializer, [params.toString()]. *)
Fixpoint toString (params : t) : jsstring :=
  match params with
  | [] => []
  | (n, v) :: rest =>
      serialize_component n ++ 0x3D :: serialize_component v
        ++ match rest with
           | [] => []
           | _ :: _ => 0x26 :: toString rest
           end
  end.

End URLSearchParams.

(* ===================================================================== *)
(** * The data model of [App.tsx] *)
(* ===================================================================== *)

(** The four level codes, kept in a name space of their own ([Q] is also
    the type of the rationals). *)
Module Level.
Inductive ErrorLevel := L | M | Q | H.
End Level.

Abbreviation ErrorLevel := Level.ErrorLevel.

Inductive DecodeStatus := untested | success | failed.

Record QrOptions := { errorLevel : ErrorLevel }.

(** The four percentages.  They are integers in every state the program
    holds: a value comes from [parseNumber] (rounded), from a range input
    with an integer step, or from [defaultMaskOptions]. *)
Record MaskOptions := {
  sizePercent : Z;
  centerXPercent : Z;
  centerYPercent : Z;
  opacityPercent : Z
}.

Definition defaultOptions : QrOptions := {| errorLevel := Level.M |}.

Definition defaultMaskOptions : MaskOptions := {|
  sizePercent := 18;
  centerXPercent := 50;
  centerYPercent := 50;
  opacityPercent := 100
|}.

Definition errorLevels : list ErrorLevel :=
  [Level.L; Level.M; Level.Q; Level.H].

(** The string an [ErrorLevel] is at run time. *)
Definition ErrorLevel_string (l : ErrorLevel) : jsstring :=
  match l with
  | Level.L => js "L"
  | Level.M => js "M"
  | Level.Q => js "Q"
  | Level.H => js "H"
  end.

(** The ranges of the data model. *)
Definition MaskOptions_in_range (m : MaskOptions) : Prop :=
  0 <= sizePercent m <= 45 /\
  0 <= centerXPercent m <= 100 /\
  0 <= centerYPercent m <= 100 /\
  10 <= opacityPercent m <= 100.

(* ===================================================================== *)
(** * The permalink codec *)
(* ===================================================================== *)

Module Permalink.

Record PermalinkState := {
  text : jsstring;
  options : QrOptions;
  maskOptions : MaskOptions
}.

(** [window.location], as far as the codec reads it; the global [window]
    is absent ([None]) outside a browser. *)
Record Location := { search : jsstring; pathname : jsstring }.

(** [Number.isFinite(parsed)] holds of the finite values only; the result
    is an integer either way, the fallbacks and bounds of the program being
    integers. *)
Definition parseNumber (value : option jsstring) (fallback min max : Z) : Z :=
  let parsed := Number.Number value in
  match parsed with
  | Number.Finite x => clamp (Math_round x) min max
  | Number.NaN | Number.Infinity _ => fallback
  end.

Definition parseErrorLevel (value : option jsstring) (fallback : ErrorLevel)
  : ErrorLevel :=
  match value with
  | Some v =>
      if JsString.truthy v then
        (* errorLevels.includes(value): the level that is this string *)
        match find (fun l => JsString.eqb (ErrorLevel_string l) v)
                errorLevels with
        | Some l => l
        | None => fallback
        end
      else fallback
  | None => fallback
  end.

Definition parsePermalinkState (window : option Location) : PermalinkState :=
  match window with
  | None =>
      {| text := js "https://example.com";
         options := defaultOptions;
         maskOptions := defaultMaskOptions |}
  | Some location =>
      let params := URLSearchParams.of_string (search location) in
      let textParam := URLSearchParams.get (js "t") params in
      let options :=
        {| errorLevel :=
             parseErrorLevel (URLSearchParams.get (js "e") params)
               (errorLevel defaultOptions) |} in
      let maskOptions :=
        {| sizePercent :=
             parseNumber (URLSearchParams.get (js "ms") params)
               (sizePercent defaultMaskOptions) 0 45;
           centerXPercent :=
             parseNumber (URLSearchParams.get (js "mx") params)
               (centerXPercent defaultMaskOptions) 0 100;
           centerYPercent :=
             parseNumber (URLSearchParams.get (js "my") params)
               (centerYPercent defaultMaskOptions) 0 100;
           opacityPercent :=
             parseNumber (URLSearchParams.get (js "mo") params)
               (opacityPercent defaultMaskOptions) 10 100 |} in
      {| text := match textParam with
                 | Some t => t
                 | None => js "https://example.com"
                 end;
         options := options;
         maskOptions := maskOptions |}
  end.

Definition createPermalink (window : option Location)
    (text : jsstring) (options : QrOptions) (maskOptions : MaskOptions)
  : jsstring :=
  match window with
  | None => []
  | Some location =>
      let params := URLSearchParams.empty in
      let params := URLSearchParams.set (js "t") text params in
      let params :=
        URLSearchParams.set (js "e") (ErrorLevel_string (errorLevel options))
          params in
      let params :=
        URLSearchParams.set (js "ms")
          (Number.toString (sizePercent maskOptions)) params in
      let params :=
        URLSearchParams.set (js "mx")
          (Number.toString (centerXPercent maskOptions)) params in
      let params :=
        URLSearchParams.set (js "my")
          (Number.toString (centerYPercent maskOptions)) params in
      let params :=
        URLSearchParams.set (js "mo")
          (Number.toString (opacityPercent maskOptions)) params in
      let query := URLSearchParams.toString params in
      if JsString.truthy query then 0x3F :: query else pathname location
  end.

End Permalink.

(* ===================================================================== *)
(** * Libraries and browser objects the pipeline calls *)
(* ===================================================================== *)

Record Pixel := { red : Z; green : Z; blue : Z; alpha : Z }.

(** A bitmap: its size and its pixels, row by row. *)
Record ImageData := { width : Z; height : Z; data : list Pixel }.

(** A CSS colour, [rgba(r, g, b, a)]. *)
Record Color := { r : Z; g : Z; b : Z; a : Q }.

(** The options object [makeQrDataUrl] hands to [QRCode.toDataURL]. *)
Record QRCodeOptions := {
  qr_width : Z;
  margin : Z;
  errorCorrectionLevel : ErrorLevel;
  dark : jsstring;
  light : jsstring
}.

(** What the component takes from outside: the two QR libraries and the
    canvas.  A promise that rejects, an image that fails to load and a
    missing 2D context are [None] or [false]. *)
Class Platform := {
  (** the global [window], absent outside a browser *)
  window : option Permalink.Location;
  QRCode_toDataURL : jsstring -> QRCodeOptions -> option jsstring;
  loadImage : jsstring -> option ImageData;
  getContext_2d : bool;
  (** source-over compositing of a fill colour on one pixel *)
  composite : Color -> Pixel -> Pixel;
  (** [jsQR(data, width, height, {inversionAttempts: 'attemptBoth'})?.data] *)
  jsQR : list Pixel -> Z -> Z -> option jsstring;
  (** [canvas.toDataURL('image/png')] *)
  canvas_toDataURL : ImageData -> jsstring
}.

(* ===================================================================== *)
(** * The mask compositor and the verification classifier *)
(* ===================================================================== *)

Module Mask.

Definition makeQrDataUrl `{Platform} (text : jsstring) (options : QrOptions)
  : option jsstring :=
  QRCode_toDataURL text
    {| qr_width := 320;
       margin := 2;
       errorCorrectionLevel := errorLevel options;
       dark := js "#111111";
       light := js "#ffffff" |}.

(** [clamp] at the one place it takes a fraction. *)
Definition clamp_Q (value min max : Q) : Q := Qmin max (Qmax min value).

Definition fixedMaskRgba (alpha : Q) : Color :=
  {| r := 113; g := 75; b := 75; a := clamp_Q alpha 0 1 |}.

Definition getDecodeMessage (status : DecodeStatus) : jsstring :=
  match status with
  | success => 0x2705 :: js " Readable"
  | failed => 0x274C :: js " Unreable"
  | untested => []
  end.

(** [context.drawImage(image, 0, 0)] on the fresh canvas, which has the
    image's own size: the bitmap takes the image's pixels. *)
Definition drawImage (canvas image : ImageData) : ImageData :=
  {| width := width canvas; height := height canvas; data := data image |}.

Fixpoint map_indexed {A B : Type} (f : Z -> A -> B) (i : Z) (l : list A)
  : list B :=
  match l with
  | [] => []
  | x :: l' => f i x :: map_indexed f (i + 1) l'
  end.

(** [context.fillRect(x, y, w, h)] with a fill style: the pixels of the
    bitmap that lie in the rectangle are composited, the others stay. *)
Definition fillRect `{Platform} (fillStyle : Color) (x y w h : Z)
    (canvas : ImageData) : ImageData :=
  {| width := width canvas;
     height := height canvas;
     data :=
       map_indexed
         (fun i p =>
            let px := i mod width canvas in
            let py := i / width canvas in
            if (x <=? px) && (px <? x + w) && (y <=? py) && (py <? y + h)
            then composite fillStyle p else p)
         0 (data canvas) |}.

(** The square [applyMaskAndTest] paints on a canvas of a given size:
    its corner and its side ([None] when [sizePercent] is not positive).
    The quotients are taken in the rationals.  The source takes them in
    binary64; on integer sizes and percentages every quotient is a multiple
    of 1/100, a half-integer is represented exactly, and any other value is
    1/100 away from the nearest half-integer, far more than the rounding
    error of a division and a subtraction at the sizes a canvas can have,
    so [Math.round] gives the same integer. *)
Definition maskSquare (canvas_width canvas_height : Z)
    (maskOptions : MaskOptions) : option (Z * Z * Z) :=
  if 0 <? sizePercent maskOptions then
    let side :=
      Z.max 1
        (Math_round
           (inject_Z (Z.min canvas_width canvas_height
                      * sizePercent maskOptions) / 100)) in
    let centerX :=
      (inject_Z (canvas_width * centerXPercent maskOptions) / 100)%Q in
    let centerY :=
      (inject_Z (canvas_height * centerYPercent maskOptions) / 100)%Q in
    let x :=
      clamp (Math_round (centerX - inject_Z side / 2)) 0
        (canvas_width - side) in
    let y :=
      clamp (Math_round (centerY - inject_Z side / 2)) 0
        (canvas_height - side) in
    Some (x, y, side)
  else None.

(** The canvas after the image is drawn and the mask, if any, is painted. *)
Definition maskedCanvas `{Platform} (image : ImageData)
    (maskOptions : MaskOptions) : ImageData :=
  let canvas :=
    drawImage {| width := width image; height := height image; data := [] |}
      image in
  match maskSquare (width canvas) (height canvas) maskOptions with
  | Some (x, y, side) =>
      fillRect
        (fixedMaskRgba (inject_Z (opacityPercent maskOptions) / 100))
        x y side side canvas
  | None => canvas
  end.

(** The classification at the end of [applyMaskAndTest]; [decoded] is
    [decoded?.data], absent when no code was found. *)
Definition classify (text : jsstring) (decoded : option jsstring)
  : DecodeStatus :=
  let normalizedText := JsString.trim text in
  let decodedText := match decoded with Some d => d | None => [] end in
  if negb (JsString.truthy normalizedText) then untested
  else if JsString.eqb decodedText normalizedText then success
  else failed.

Record MaskResult := {
  maskedDataUrl : jsstring;
  decodeStatus : DecodeStatus
}.

(** [applyMaskAndTest]; [None] is a rejected promise. *)
Definition applyMaskAndTest `{Platform}
    (sourceDataUrl text : jsstring) (maskOptions : MaskOptions)
  : option MaskResult :=
  match loadImage sourceDataUrl with
  | None => None
  | Some image =>
      if negb getContext_2d then None
      else
        let canvas := maskedCanvas image maskOptions in
        let imageData := canvas in
        let decoded :=
          jsQR (data imageData) (width imageData) (height imageData) in
        Some {| maskedDataUrl := canvas_toDataURL canvas;
                decodeStatus := classify text decoded |}
  end.

End Mask.

(* ===================================================================== *)
(** * The component [App]: its state, its effects and its promises *)
(* ===================================================================== *)

Module App.

(** An object of the heap: hook dependencies compare objects by identity,
    strings by value. *)
Record obj (A : Type) := Obj { addr : nat; value : A }.
Arguments Obj {A} _ _.
Arguments addr {A} _.
Arguments value {A} _.

(** The two module-level constants are objects of their own. *)
Definition defaultOptions_obj : obj QrOptions := Obj 0%nat defaultOptions.
Definition defaultMaskOptions_obj : obj MaskOptions :=
  Obj 1%nat defaultMaskOptions.

(** The seven [useState] variables. *)
Record State := {
  text : jsstring;
  options : obj QrOptions;
  maskOptions : obj MaskOptions;
  qrDataUrl : jsstring;
  maskedDataUrl : jsstring;
  decodeStatus : DecodeStatus;
  errorMessage : jsstring
}.

Definition setText (v : jsstring) (s : State) : State :=
  {| text := v; options := options s; maskOptions := maskOptions s;
     qrDataUrl := qrDataUrl s; maskedDataUrl := maskedDataUrl s;
     decodeStatus := decodeStatus s; errorMessage := errorMessage s |}.

Definition setOptions (v : obj QrOptions) (s : State) : State :=
  {| text := text s; options := v; maskOptions := maskOptions s;
     qrDataUrl := qrDataUrl s; maskedDataUrl := maskedDataUrl s;
     decodeStatus := decodeStatus s; errorMessage := errorMessage s |}.

Definition setMaskOptions (v : obj MaskOptions) (s : State) : State :=
  {| text := text s; options := options s; maskOptions := v;
     qrDataUrl := qrDataUrl s; maskedDataUrl := maskedDataUrl s;
     decodeStatus := decodeStatus s; errorMessage := errorMessage s |}.

Definition setQrDataUrl (v : jsstring) (s : State) : State :=
  {| text := text s; options := options s; maskOptions := maskOptions s;
     qrDataUrl := v; maskedDataUrl := maskedDataUrl s;
     decodeStatus := decodeStatus s; errorMessage := errorMessage s |}.

Definition setMaskedDataUrl (v : jsstring) (s : State) : State :=
  {| text := text s; options := options s; maskOptions := maskOptions s;
     qrDataUrl := qrDataUrl s; maskedDataUrl := v;
     decodeStatus := decodeStatus s; errorMessage := errorMessage s |}.

Definition setDecodeStatus (v : DecodeStatus) (s : State) : State :=
  {| text := text s; options := options s; maskOptions := maskOptions s;
     qrDataUrl := qrDataUrl s; maskedDataUrl := maskedDataUrl s;
     decodeStatus := v; errorMessage := errorMessage s |}.

Definition setErrorMessage (v : jsstring) (s : State) : State :=
  {| text := text s; options := options s; maskOptions := maskOptions s;
     qrDataUrl := qrDataUrl s; maskedDataUrl := maskedDataUrl s;
     decodeStatus := decodeStatus s; errorMessage := v |}.

(** A promise an effect is waiting for, with the arguments of the call that
    made it. *)
Inductive Task :=
| makeQrDataUrl_call (normalizedText : jsstring) (options : QrOptions)
| applyMaskAndTest_call (qrDataUrl text : jsstring) (maskOptions : MaskOptions).

(** One execution of an effect that started a promise: the promise and the
    [active] variable its handlers and its cleanup close over. *)
Record Run := { run_id : nat; task : Task; active : bool }.

(** The component between two events.  [address] is the URL last given to
    [history.replaceState].  For each effect, the dependencies its last
    execution saw; for the two asynchronous ones, the run whose [active]
    the cleanup returned by that execution clears ([None]: the execution
    returned no cleanup). *)
Record World := {
  state : State;
  runs : list Run;
  next : nat;
  address : option jsstring;
  permalink_deps : option (nat * nat * jsstring);
  encode_deps : option (nat * jsstring);
  encode_cleanup : option nat;
  mask_deps : option (nat * jsstring * jsstring);
  mask_cleanup : option nat
}.

Definition with_state (f : State -> State) (w : World) : World :=
  {| state := f (state w); runs := runs w; next := next w;
     address := address w; permalink_deps := permalink_deps w;
     encode_deps := encode_deps w; encode_cleanup := encode_cleanup w;
     mask_deps := mask_deps w; mask_cleanup := mask_cleanup w |}.

Definition with_runs (rs : list Run) (w : World) : World :=
  {| state := state w; runs := rs; next := next w;
     address := address w; permalink_deps := permalink_deps w;
     encode_deps := encode_deps w; encode_cleanup := encode_cleanup w;
     mask_deps := mask_deps w; mask_cleanup := mask_cleanup w |}.

Definition with_next (n : nat) (w : World) : World :=
  {| state := state w; runs := runs w; next := n;
     address := address w; permalink_deps := permalink_deps w;
     encode_deps := encode_deps w; encode_cleanup := encode_cleanup w;
     mask_deps := mask_deps w; mask_cleanup := mask_cleanup w |}.

Definition with_address (u : jsstring) (w : World) : World :=
  {| state := state w; runs := runs w; next := next w;
     address := Some u; permalink_deps := permalink_deps w;
     encode_deps := encode_deps w; encode_cleanup := encode_cleanup w;
     mask_deps := mask_deps w; mask_cleanup := mask_cleanup w |}.

Definition with_encode_cleanup (c : option nat) (w : World) : World :=
  {| state := state w; runs := runs w; next := next w;
     address := address w; permalink_deps := permalink_deps w;
     encode_deps := encode_deps w; encode_cleanup := c;
     mask_deps := mask_deps w; mask_cleanup := mask_cleanup w |}.

Definition with_mask_cleanup (c : option nat) (w : World) : World :=
  {| state := state w; runs := runs w; next := next w;
     address := address w; permalink_deps := permalink_deps w;
     encode_deps := encode_deps w; encode_cleanup := encode_cleanup w;
     mask_deps := mask_deps w; mask_cleanup := c |}.

(** The dependencies of a render become the ones last seen. *)
Definition with_deps (s : State) (w : World) : World :=
  {| state := state w; runs := runs w; next := next w;
     address := address w;
     permalink_deps :=
       Some (addr (maskOptions s), addr (options s), text s);
     encode_deps := Some (addr (options s), text s);
     encode_cleanup := encode_cleanup w;
     mask_deps := Some (addr (maskOptions s), qrDataUrl s, text s);
     mask_cleanup := mask_cleanup w |}.

(** ** The effects *)

(** [active = false] in the closure of one run. *)
Definition deactivate (id : nat) (rs : list Run) : list Run :=
  map (fun r =>
         if Nat.eqb (run_id r) id
         then {| run_id := run_id r; task := task r; active := false |}
         else r)
      rs.

(** The cleanup function an effect execution returned, called before the
    effect runs again. *)
Definition run_cleanup (cleanup : option nat) (w : World) : World :=
  match cleanup with
  | Some id => with_runs (deactivate id (runs w)) w
  | None => w
  end.

(** [let active = true] and the call that makes the promise. *)
Definition start (t : Task) (w : World) : World :=
  with_next (S (next w))
    (with_runs (runs w ++ [{| run_id := next w; task := t; active := true |}])
       w).

(** First effect, on [maskOptions, options, text]. *)
Definition permalink_effect `{Platform} (s : State) (w : World) : World :=
  match window with
  | None => w
  | Some _ =>
      let nextPermalink :=
        Permalink.createPermalink window (text s) (value (options s))
          (value (maskOptions s)) in
      with_address nextPermalink w
  end.

(** Second effect, on [options, text]. *)
Definition encode_effect (s : State) (w : World) : World :=
  let normalizedText := JsString.trim (text s) in
  if negb (JsString.truthy normalizedText) then
    with_encode_cleanup None
      (with_state
         (fun st =>
            setDecodeStatus untested
              (setMaskedDataUrl []
                 (setQrDataUrl []
                    (setErrorMessage
                       (js "Please enter text to generate a QR code.") st))))
         w)
  else
    let w := with_state (setErrorMessage []) w in
    with_encode_cleanup (Some (next w))
      (start (makeQrDataUrl_call normalizedText (value (options s))) w).

(** Third effect, on [maskOptions, qrDataUrl, text]. *)
Definition mask_effect (s : State) (w : World) : World :=
  if negb (JsString.truthy (qrDataUrl s)) then with_mask_cleanup None w
  else
    with_mask_cleanup (Some (next w))
      (start
         (applyMaskAndTest_call (qrDataUrl s) (text s)
            (value (maskOptions s)))
         w).

Definition permalink_changed (s : State) (w : World) : bool :=
  match permalink_deps w with
  | Some (m, o, t) =>
      negb (Nat.eqb m (addr (maskOptions s)) && Nat.eqb o (addr (options s))
            && JsString.eqb t (text s))
  | None => true
  end.

Definition encode_changed (s : State) (w : World) : bool :=
  match encode_deps w with
  | Some (o, t) =>
      negb (Nat.eqb o (addr (options s)) && JsString.eqb t (text s))
  | None => true
  end.

Definition mask_changed (s : State) (w : World) : bool :=
  match mask_deps w with
  | Some (m, q, t) =>
      negb (Nat.eqb m (addr (maskOptions s)) && JsString.eqb q (qrDataUrl s)
            && JsString.eqb t (text s))
  | None => true
  end.

(** React runs effects: of every effect chosen, first the cleanups, then
    the bodies, in the order of the hooks.  The bodies read the variables
    of the render, [s]; what they set shows in the next render. *)
Definition runEffects `{Platform} (p e m : bool) (w : World) : World :=
  let s := state w in
  let w := if e then run_cleanup (encode_cleanup w) w else w in
  let w := if m then run_cleanup (mask_cleanup w) w else w in
  let w := if p then permalink_effect s w else w in
  let w := if e then encode_effect s w else w in
  let w := if m then mask_effect s w else w in
  with_deps s w.

(** The effects of the current render: those whose dependencies changed. *)
Definition flushEffects `{Platform} (w : World) : World :=
  let s := state w in
  runEffects (permalink_changed s w) (encode_changed s w) (mask_changed s w)
    w.

(** [React.StrictMode] ([main.tsx]), in a development build: every effect
    is destroyed and run once more on the same render. *)
Definition strictModeRemount `{Platform} (w : World) : World :=
  runEffects true true true w.

(** ** The promise handlers *)

(** The [.then] and [.catch] handlers of the second effect. *)
Definition encode_settled (outcome : option jsstring) (is_active : bool)
    (s : State) : State :=
  match outcome with
  | Some dataUrl =>
      if negb is_active then s else setQrDataUrl dataUrl s
  | None =>
      if negb is_active then s
      else
        setDecodeStatus failed
          (setMaskedDataUrl []
             (setQrDataUrl []
                (setErrorMessage
                   (js "Failed to generate QR code. Please check your inputs.")
                   s)))
  end.

(** The [.then] and [.catch] handlers of the third effect. *)
Definition mask_settled (outcome : option Mask.MaskResult) (is_active : bool)
    (s : State) : State :=
  match outcome with
  | Some result =>
      if negb is_active then s
      else
        setDecodeStatus (Mask.decodeStatus result)
          (setMaskedDataUrl (Mask.maskedDataUrl result) s)
  | None =>
      if negb is_active then s else setDecodeStatus failed s
  end.

(** The promise of a pending run settles and its handler runs. *)
Definition settle `{Platform} (id : nat) (w : World) : World :=
  match find (fun r => Nat.eqb (run_id r) id) (runs w) with
  | None => w
  | Some run =>
      let w :=
        with_runs (filter (fun r => negb (Nat.eqb (run_id r) id)) (runs w)) w
      in
      match task run with
      | makeQrDataUrl_call normalizedText options =>
          with_state
            (encode_settled (Mask.makeQrDataUrl normalizedText options)
               (active run))
            w
      | applyMaskAndTest_call qrDataUrl text maskOptions =>
          with_state
            (mask_settled (Mask.applyMaskAndTest qrDataUrl text maskOptions)
               (active run))
            w
      end
  end.

(** ** Events

    The scheduler is left free.  A state change and the flush of the
    effects it calls for are two events, so a promise may settle between
    them, as it may in the browser; React itself flushes the effects of a
    render before the next render at the latest, which is one of the
    schedules. *)

Inductive Event :=
| ChangeText (value : jsstring)          (* the textarea *)
| ChangeErrorLevel (value : ErrorLevel)  (* the select *)
| ChangeSize (value : Z)                 (* the four range inputs *)
| ChangeCenterX (value : Z)
| ChangeCenterY (value : Z)
| ChangeOpacity (value : Z)
| ResetOptions                           (* the button *)
| FlushEffects
| StrictModeRemount
| Settle (id : nat).

(** An updater [prev => ({...prev, field: v})] makes a new object. *)
Definition update_maskOptions (f : MaskOptions -> MaskOptions) (w : World)
  : World :=
  with_next (S (next w))
    (with_state
       (fun s => setMaskOptions (Obj (next w) (f (value (maskOptions s)))) s)
       w).

Definition step `{Platform} (w : World) (e : Event) : World :=
  match e with
  | ChangeText v => with_state (setText v) w
  | ChangeErrorLevel v =>
      with_next (S (next w))
        (with_state (setOptions (Obj (next w) {| errorLevel := v |})) w)
  | ChangeSize v =>
      update_maskOptions
        (fun prev =>
           {| sizePercent := v;
              centerXPercent := centerXPercent prev;
              centerYPercent := centerYPercent prev;
              opacityPercent := opacityPercent prev |})
        w
  | ChangeCenterX v =>
      update_maskOptions
        (fun prev =>
           {| sizePercent := sizePercent prev;
              centerXPercent := v;
              centerYPercent := centerYPercent prev;
              opacityPercent := opacityPercent prev |})
        w
  | ChangeCenterY v =>
      update_maskOptions
        (fun prev =>
           {| sizePercent := sizePercent prev;
              centerXPercent := centerXPercent prev;
              centerYPercent := v;
              opacityPercent := opacityPercent prev |})
        w
  | ChangeOpacity v =>
      update_maskOptions
        (fun prev =>
           {| sizePercent := sizePercent prev;
              centerXPercent := centerXPercent prev;
              centerYPercent := centerYPercent prev;
              opacityPercent := v |})
        w
  | ResetOptions =>
      with_state
        (fun s => setMaskOptions defaultMaskOptions_obj
                    (setOptions defaultOptions_obj s))
        w
  | FlushEffects => flushEffects w
  | StrictModeRemount => strictModeRemount w
  | Settle id => settle id w
  end.

(** The component as mounted: the state read from the address, nothing
    pending, no effect run yet. *)
Definition mount `{Platform} : World :=
  let initialState := Permalink.parsePermalinkState window in
  let fresh := match window with Some _ => true | None => false end in
  {| state :=
       {| text := Permalink.text initialState;
          options :=
            if fresh then Obj 2%nat (Permalink.options initialState)
            else defaultOptions_obj;
          maskOptions :=
            if fresh then Obj 3%nat (Permalink.maskOptions initialState)
            else defaultMaskOptions_obj;
          qrDataUrl := [];
          maskedDataUrl := [];
          decodeStatus := untested;
          errorMessage := [] |};
     runs := [];
     next := 4%nat;
     address := None;
     permalink_deps := None;
     encode_deps := None;
     encode_cleanup := None;
     mask_deps := None;
     mask_cleanup := None |}.

(** The component after a sequence of events, in any order. *)
Definition exec `{Platform} (events : list Event) : World :=
  fold_left step events mount.

(** ** What the render shows *)

Definition currentPreview (s : State) : jsstring :=
  if JsString.truthy (maskedDataUrl s) then maskedDataUrl s else qrDataUrl s.

(** The status line, absent when the status is [untested]. *)
Definition shownDecodeStatus (s : State) : option jsstring :=
  match decodeStatus s with
  | untested => None
  | status => Some (Mask.getDecodeMessage status)
  end.

(** The advisory ([Flash]), absent when the message is empty. *)
Definition shownError (s : State) : option jsstring :=
  if JsString.truthy (errorMessage s) then Some (errorMessage s) else None.

End App.

(* ===================================================================== *)
(** * Vocabulary of the statements *)
(* ===================================================================== *)

Module EncodingProps.
Import Encoding.

Definition is_scalar (cp : Z) : Prop :=
  0 <= cp <= 0x10FFFF /\ ~ (0xD800 <= cp <= 0xDFFF).

Definition is_byte (b : Z) : Prop := 0 <= b < 256.

(** ASCII text is its own UTF-8 encoding. *)
Definition is_ascii (b : Z) : Prop := 0 <= b < 128.

(** What the byte serializer can write: ASCII, never [&] nor [=]. *)
Definition is_form_char (b : Z) : Prop :=
  is_ascii b /\ b <> 0x26 /\ b <> 0x3D.

End EncodingProps.

Module URLSearchParamsProps.
Import Encoding URLSearchParams.

Definition well_formed_pair (p : jsstring * jsstring) : Prop :=
  well_formed (fst p) = true /\ well_formed (snd p) = true.

(** One serialized pair, as a sequence between two [&]. *)
Definition field (p : jsstring * jsstring) : list Z :=
  serialize_component (fst p) ++ 0x3D :: serialize_component (snd p).

End URLSearchParamsProps.

Module PermalinkProps.
Import Encoding URLSearchParams Permalink.

(** The pairs [createPermalink] sets, in order. *)
Definition permalink_pairs (text : jsstring) (options : QrOptions)
    (maskOptions : MaskOptions) : URLSearchParams.t :=
  [ (js "t", to_usv text);
    (js "e", to_usv (ErrorLevel_string (errorLevel options)));
    (js "ms", to_usv (Number.toString (sizePercent maskOptions)));
    (js "mx", to_usv (Number.toString (centerXPercent maskOptions)));
    (js "my", to_usv (Number.toString (centerYPercent maskOptions)));
    (js "mo", to_usv (Number.toString (opacityPercent maskOptions))) ].

(** [Number(String(z))] rounds back to [z], for the percentages. *)
Definition reads_back (z : Z) : bool :=
  match Number.Number (Some (Number.toString z)) with
  | Number.Finite x => Math_round x =? z
  | _ => false
  end.

Definition six_pairs (v1 v2 v3 v4 v5 v6 : jsstring) : URLSearchParams.t :=
  [ (js "t", v1); (js "e", v2); (js "ms", v3);
    (js "mx", v4); (js "my", v5); (js "mo", v6) ].

(** The state with an unpaired high surrogate as its text, and the defaults. *)
Definition unpaired_surrogate_state : PermalinkState :=
  {| text := [0xD800];
     options := defaultOptions;
     maskOptions := defaultMaskOptions |}.

Definition here : Location := {| search := []; pathname := js "/" |}.

(** Decoding the permalink of a state. *)
Definition decode_encode (location : Location) (path : jsstring)
    (s : PermalinkState) : PermalinkState :=
  parsePermalinkState
    (Some {| search :=
               createPermalink (Some location) (text s) (options s)
                 (maskOptions s);
             pathname := path |}).

End PermalinkProps.

(** A stand-in for the libraries, for concrete instances: the encoder
    takes at most ten code units, every data URL loads as a white bitmap of
    4 by 4 pixels, the fill paints over a pixel, and the decoder finds no
    code. *)
Definition white : Pixel :=
  {| red := 255; green := 255; blue := 255; alpha := 255 |}.

Definition sample_platform : Platform := {|
  window :=
    Some {| Permalink.search := js "?t=hi"; Permalink.pathname := js "/" |};
  QRCode_toDataURL :=
    fun text _ =>
      if (Z.of_nat (List.length text) <=? 10)%Z then Some (js "data:" ++ text)
      else None;
  loadImage :=
    fun _ => Some {| width := 4; height := 4; data := repeat white 16 |};
  getContext_2d := true;
  composite :=
    fun c _ => {| red := r c; green := g c; blue := b c; alpha := 255 |};
  jsQR := fun _ _ _ => None;
  canvas_toDataURL := fun canvas => map red (data canvas)
|}.

(** A second stand-in, with an encoder whose capacity depends on the
    level, as a QR code's does: ten code units, four at level H.  The page
    is opened on [?t=hello], and the decoder reads "hello" on every
    bitmap. *)
Definition level_platform : Platform := {|
  window :=
    Some {| Permalink.search := js "?t=hello"; Permalink.pathname := js "/" |};
  QRCode_toDataURL :=
    fun text options =>
      let capacity :=
        match errorCorrectionLevel options with
        | Level.H => 4
        | _ => 10
        end in
      if (Z.of_nat (List.length text) <=? capacity)%Z
      then Some (js "data:" ++ text)
      else None;
  loadImage :=
    fun _ => Some {| width := 4; height := 4; data := repeat white 16 |};
  getContext_2d := true;
  composite :=
    fun c _ => {| red := r c; green := g c; blue := b c; alpha := 255 |};
  jsQR := fun _ _ _ => Some (js "hello");
  canvas_toDataURL := fun canvas => map red (data canvas)
|}.

Module AppProps.
Import App.

(** The run an effect's latest execution registered with its cleanup: the
    only run of that effect no later execution has superseded. *)
Definition current (w : World) (run : Run) : Prop :=
  match task run with
  | makeQrDataUrl_call _ _ => encode_cleanup w = Some (run_id run)
  | applyMaskAndTest_call _ _ _ => mask_cleanup w = Some (run_id run)
  end.

Definition is_encode (run : Run) : bool :=
  match task run with
  | makeQrDataUrl_call _ _ => true
  | applyMaskAndTest_call _ _ _ => false
  end.

(** What holds of the pending runs between any two events. *)
Record invariant (w : World) : Prop := {
  ids_below_next : forall run, In run (runs w) -> (run_id run < next w)%nat;
  ids_distinct : NoDup (map run_id (runs w));
  active_is_current :
    forall run, In run (runs w) -> active run = true -> current w run;
  encoder_input_trimmed :
    forall run normalizedText options,
      In run (runs w) ->
      task run = makeQrDataUrl_call normalizedText options ->
      exists text,
        normalizedText = JsString.trim text /\ normalizedText <> []
}.

(** Every pending run of one effect has its flag cleared. *)
Definition quiet (encode : bool) (w : World) : Prop :=
  forall run, In run (runs w) -> is_encode run = encode -> active run = false.

(** The page opened on [?t=hi]; the text is edited before the first
    encoding has answered. *)
Definition two_edits : list Event :=
  [FlushEffects; ChangeText (js "yo"); FlushEffects].

Definition first_run : Run :=
  {| run_id := 4;
     task := makeQrDataUrl_call (js "hi") {| errorLevel := Level.M |};
     active := false |}.

(** A text the stand-in encoder cannot take. *)
Definition long_text : jsstring := js "a text of more than ten units".

Definition edit_long : list Event := [ChangeText long_text; FlushEffects].

Definition long_run : Run :=
  {| run_id := 4;
     task := makeQrDataUrl_call long_text {| errorLevel := Level.M |};
     active := true |}.

(** On [level_platform]: the page opened on "hello" at level M has its
    base image and is masking and decoding it (run 5) when the level is set
    to H, at which "hello" cannot be encoded (run 7). *)
Definition masking : list Event := [FlushEffects; Settle 4; FlushEffects].

Definition level_raised : list Event :=
  masking ++ [ChangeErrorLevel Level.H; FlushEffects].

Definition mask_run : Run :=
  {| run_id := 5;
     task := applyMaskAndTest_call (js "data:hello") (js "hello")
               {| sizePercent := 0; centerXPercent := 0;
                  centerYPercent := 0; opacityPercent := 10 |};
     active := true |}.

Definition raised_run : Run :=
  {| run_id := 7;
     task := makeQrDataUrl_call (js "hello") {| errorLevel := Level.H |};
     active := true |}.

(** The export of the white bitmap, as the stand-ins give it. *)
Definition white_export : jsstring := repeat 255 16.

End AppProps.

Module StringProps.

(** What every string value satisfies: its code units are 16-bit. *)
Definition is_string (s : jsstring) : Prop :=
  Forall (fun c => 0 <= c <= 0xFFFF) s.

(** The state of the UTF-8 decoder between two bytes can only lead to a
    scalar value: whatever bytes within its bounds complete the sequence. *)
Fixpoint completes_to_scalar (left : nat) (cp lo hi : Z) : Prop :=
  match left with
  | O => EncodingProps.is_scalar cp
  | S n =>
      forall b, lo <= b <= hi ->
      completes_to_scalar n (cp * 64 + b mod 64) 0x80 0xBF
  end.

Definition pending_ok (p : Encoding.pending) : Prop :=
  (1 <= Encoding.bytes_left p)%nat
  /\ completes_to_scalar (Encoding.bytes_left p) (Encoding.code_point p)
       (Encoding.lower_boundary p) (Encoding.upper_boundary p).

Definition state_ok (st : option Encoding.pending) : Prop :=
  match st with
  | Some p => pending_ok p
  | None => True
  end.

End StringProps.

Module PermalinkMoreProps.

(** Characters a query string can hold as they are: the unreserved set of
    the serializer, and [+], [%], [&], [=]. *)
Definition is_query_char (c : Z) : Prop :=
  Encoding.is_unreserved c = true
  \/ c = 0x2B \/ c = 0x25 \/ c = 0x26 \/ c = 0x3D.

End PermalinkMoreProps.

Module MaskProps.

(** Whether the pixel at an index of the bitmap, rows first, lies in the
    square that is painted on a canvas of that size. *)
Definition in_mask_square (canvas_width canvas_height : Z)
    (maskOptions : MaskOptions) (index : nat) : bool :=
  match Mask.maskSquare canvas_width canvas_height maskOptions with
  | Some (x, y, side) =>
      let px := Z.of_nat index mod canvas_width in
      let py := Z.of_nat index / canvas_width in
      (x <=? px) && (px <? x + side) && (y <=? py) && (py <? y + side)
  | None => false
  end.

End MaskProps.

Module PipelineProps.
Import App.

(** The three variables only the user sets. *)
Definition inputs (s : State)
  : jsstring * obj QrOptions * obj MaskOptions :=
  (text s, options s, maskOptions s).

(** The values a range input can report: those between its [min] and its
    [max] attributes. *)
Definition event_in_range (e : Event) : Prop :=
  match e with
  | ChangeSize v => 0 <= v <= 45
  | ChangeCenterX v => 0 <= v <= 100
  | ChangeCenterY v => 0 <= v <= 100
  | ChangeOpacity v => 10 <= v <= 100
  | _ => True
  end.

(** Every call of [applyMaskAndTest] still pending was made with mask
    options of the data model. *)
Definition mask_calls_in_range (w : World) : Prop :=
  forall run q t m,
    In run (runs w) -> task run = applyMaskAndTest_call q t m ->
    MaskOptions_in_range m.

(** The two advisory messages. *)
Definition please_enter : jsstring :=
  js "Please enter text to generate a QR code.".

Definition failed_to_generate : jsstring :=
  js "Failed to generate QR code. Please check your inputs.".

(** Where the base image and the advisory of a state can come from. *)
Definition state_provenance `{Platform} (s : State) : Prop :=
  (qrDataUrl s = []
   \/ exists t o,
        JsString.trim t <> []
        /\ Mask.makeQrDataUrl (JsString.trim t) o = Some (qrDataUrl s))
  /\ (errorMessage s = [] \/ errorMessage s = please_enter
      \/ errorMessage s = failed_to_generate).

(** The calls of [applyMaskAndTest] that are pending, in the order they
    were made: the id of each run and the arguments of its call. *)
Definition mask_calls (w : World) : list (nat * Task) :=
  map (fun run => (run_id run, task run))
    (filter (fun run => negb (AppProps.is_encode run)) (runs w)).

(** Every call of [applyMaskAndTest] still pending was made on a base
    image the encoder returned for a trimmed text that is not empty. *)
Definition mask_calls_on_encoded `{Platform} (w : World) : Prop :=
  forall run q t m,
    In run (runs w) -> task run = applyMaskAndTest_call q t m ->
    exists t' o,
      JsString.trim t' <> []
      /\ Mask.makeQrDataUrl (JsString.trim t') o = Some q.

(** Where a status [success] can come from: the masked image of the state
    is the export of a masked canvas, painted over an image that loaded
    from what the encoder returned, and on that canvas the decoder read the
    trimmed text of the call, which is not empty. *)
Definition readable_provenance `{Platform} (s : State) : Prop :=
  decodeStatus s = success ->
  exists (q t : jsstring) (m : MaskOptions) (image : ImageData)
         (t' : jsstring) (o : QrOptions),
    JsString.trim t' <> []
    /\ Mask.makeQrDataUrl (JsString.trim t') o = Some q
    /\ loadImage q = Some image
    /\ getContext_2d = true
    /\ JsString.trim t <> []
    /\ jsQR (data (Mask.maskedCanvas image m))
         (width (Mask.maskedCanvas image m))
         (height (Mask.maskedCanvas image m))
       = Some (JsString.trim t)
    /\ maskedDataUrl s = canvas_toDataURL (Mask.maskedCanvas image m).

(** The objects of the state are below the allocation counter, and the two
    addresses of the module-level constants hold the constants. *)
Definition objects_ok (w : World) : Prop :=
  (addr (options (state w)) < next w)%nat
  /\ (addr (maskOptions (state w)) < next w)%nat
  /\ (2 <= next w)%nat
  /\ (addr (options (state w)) = 0%nat ->
      value (options (state w)) = defaultOptions)
  /\ (addr (maskOptions (state w)) = 1%nat ->
      value (maskOptions (state w)) = defaultMaskOptions).

(** The address is the permalink of the values the first effect last saw,
    and an object of the state with an address it saw has those values. *)
Definition address_ok `{Platform} (w : World) : Prop :=
  match permalink_deps w with
  | Some (ma, oa, t) =>
      exists o m,
        address w = Some (Permalink.createPermalink window t o m)
        /\ (oa < next w)%nat /\ (ma < next w)%nat
        /\ (oa = addr (options (state w)) -> o = value (options (state w)))
        /\ (ma = addr (maskOptions (state w)) ->
            m = value (maskOptions (state w)))
        /\ (oa = 0%nat -> o = defaultOptions)
        /\ (ma = 1%nat -> m = defaultMaskOptions)
  | None => True
  end.

End PipelineProps.

(* ===================================================================== *)
(** * Facts about strings and rounding *)
(* ===================================================================== *)

Module JsStringFacts.
Import JsString.

Lemma eqb_eq (a b : jsstring) : eqb a b = true <-> a = b.
Proof.
  revert b; induction a as [|x a IH]; intros [|y b]; simpl;
    try (split; [discriminate | discriminate]); try tauto.
  rewrite andb_true_iff, Z.eqb_eq, IH.
  split; [intros [-> ->]; reflexivity | intros E; inversion E; auto].
Qed.

Lemma eqb_refl (a : jsstring) : eqb a a = true.
Proof. apply eqb_eq; reflexivity. Qed.

Lemma eqb_neq (a b : jsstring) : eqb a b = false <-> a <> b.
Proof.
  rewrite <- eqb_eq. destruct (eqb a b); split; congruence.
Qed.

Lemma truthy_false (s : jsstring) : truthy s = false <-> s = [].
Proof. destruct s; simpl; split; congruence. Qed.

End JsStringFacts.

Lemma clamp_bounds (v lo hi : Z) : lo <= hi -> lo <= clamp v lo hi <= hi.
Proof. unfold clamp; lia. Qed.

Lemma clamp_id (v lo hi : Z) : lo <= v <= hi -> clamp v lo hi = v.
Proof. unfold clamp; lia. Qed.

Lemma Math_round_ratio (n : Z) (d : positive) :
  Math_round (n # d) = (2 * n + Z.pos d) / (2 * Z.pos d).
Proof.
  unfold Math_round, Qplus, Qfloor; cbn [Qnum Qden].
  rewrite Pos2Z.inj_mul. f_equal; lia.
Qed.

Lemma Math_round_nearest (x : Q) :
  (x - (1 # 2) < inject_Z (Math_round x))%Q /\
  (inject_Z (Math_round x) <= x + (1 # 2))%Q.
Proof.
  unfold Math_round. split.
  - pose proof (Qlt_floor (x + (1 # 2))) as H.
    rewrite inject_Z_plus in H. simpl in H.
    apply Qplus_lt_l with (z := 1%Q).
    eapply Qle_lt_trans; [|exact H].
    ring_simplify. apply Qle_refl.
  - apply Qfloor_le.
Qed.

(* ===================================================================== *)
(** * Facts about the encodings *)
(* ===================================================================== *)

Ltac dm_lia := Z.div_mod_to_equations; lia.

(** Decide a boolean test of integer comparisons that stands in the goal. *)
Ltac btrue :=
  repeat rewrite andb_true_iff; repeat rewrite orb_true_iff;
  repeat rewrite Z.leb_le; repeat rewrite Z.ltb_lt; repeat rewrite Z.eqb_eq.

Lemma leb_true (a b : Z) : a <= b -> (a <=? b) = true.
Proof. apply Z.leb_le. Qed.
Lemma leb_false (a b : Z) : b < a -> (a <=? b) = false.
Proof. apply Z.leb_gt. Qed.
Lemma ltb_true (a b : Z) : a < b -> (a <? b) = true.
Proof. apply Z.ltb_lt. Qed.
Lemma ltb_false (a b : Z) : b <= a -> (a <? b) = false.
Proof. apply Z.ltb_ge. Qed.
Lemma eqb_false (a b : Z) : a <> b -> (a =? b) = false.
Proof. apply Z.eqb_neq. Qed.

(** Rewrite every comparison of the goal whose outcome arithmetic settles. *)
Ltac zcmp :=
  repeat match goal with
  | |- context [?a <=? ?b] =>
      first [ rewrite (leb_true a b) by dm_lia
            | rewrite (leb_false a b) by dm_lia ]
  | |- context [?a <? ?b] =>
      first [ rewrite (ltb_true a b) by dm_lia
            | rewrite (ltb_false a b) by dm_lia ]
  | |- context [?a =? ?b] =>
      first [ rewrite (Z.eqb_refl a)
            | rewrite (eqb_false a b) by dm_lia ]
  end.

Module EncodingFacts.
Import Encoding EncodingProps.

Lemma utf8_bytes_range (cp : Z) :
  is_scalar cp -> Forall is_byte (utf8_bytes cp).
Proof.
  intros [R _]. unfold utf8_bytes, is_byte.
  destruct (cp <? 0x80) eqn:E1; [apply Z.ltb_lt in E1|apply Z.ltb_ge in E1].
  { repeat constructor; lia. }
  destruct (cp <? 0x800) eqn:E2; [apply Z.ltb_lt in E2|apply Z.ltb_ge in E2].
  { repeat constructor; dm_lia. }
  destruct (cp <? 0x10000) eqn:E3; [apply Z.ltb_lt in E3|apply Z.ltb_ge in E3].
  { repeat constructor; dm_lia. }
  repeat constructor; dm_lia.
Qed.

Lemma utf8_encode_range (cps : list Z) :
  Forall is_scalar cps -> Forall is_byte (utf8_encode cps).
Proof.
  induction 1 as [|cp cps Hc _ IH]; simpl; [constructor|].
  apply Forall_app; split; [apply utf8_bytes_range; exact Hc | exact IH].
Qed.

Lemma utf8_decode_bytes (cp : Z) (rest : list Z) :
  is_scalar cp ->
  utf8_decode_from None (utf8_bytes cp ++ rest)
  = cp :: utf8_decode_from None rest.
Proof.
  intros [R S]. unfold utf8_bytes.
  destruct (cp <? 0x80) eqn:E1; [apply Z.ltb_lt in E1|apply Z.ltb_ge in E1].
  { cbn [app utf8_decode_from]. unfold utf8_lead. zcmp. reflexivity. }
  destruct (cp <? 0x800) eqn:E2; [apply Z.ltb_lt in E2|apply Z.ltb_ge in E2].
  { cbn [app utf8_decode_from]. unfold utf8_lead. zcmp.
    cbn [andb app utf8_decode_from lower_boundary upper_boundary
         bytes_left code_point].
    zcmp. cbn [andb]. f_equal. dm_lia. }
  destruct (cp <? 0x10000) eqn:E3; [apply Z.ltb_lt in E3|apply Z.ltb_ge in E3].
  { cbn [app utf8_decode_from]. unfold utf8_lead. zcmp.
    cbn [andb app utf8_decode_from lower_boundary upper_boundary
         bytes_left code_point].
    destruct (0xE0 + cp / 4096 =? 0xE0) eqn:A;
      [apply Z.eqb_eq in A|apply Z.eqb_neq in A];
    (destruct (0xE0 + cp / 4096 =? 0xED) eqn:B;
      [apply Z.eqb_eq in B|apply Z.eqb_neq in B]);
    zcmp;
    cbn [andb app utf8_decode_from lower_boundary upper_boundary
         bytes_left code_point];
    zcmp; cbn [andb]; f_equal; dm_lia. }
  cbn [app utf8_decode_from]. unfold utf8_lead. zcmp.
  cbn [andb app utf8_decode_from lower_boundary upper_boundary
       bytes_left code_point].
  destruct (0xF0 + cp / 262144 =? 0xF0) eqn:A;
    [apply Z.eqb_eq in A|apply Z.eqb_neq in A];
  (destruct (0xF0 + cp / 262144 =? 0xF4) eqn:B;
    [apply Z.eqb_eq in B|apply Z.eqb_neq in B]);
  zcmp;
  cbn [andb app utf8_decode_from lower_boundary upper_boundary
       bytes_left code_point];
  zcmp; cbn [andb utf8_decode_from bytes_left code_point
             lower_boundary upper_boundary];
  zcmp; cbn [andb]; f_equal; dm_lia.
Qed.

(** The UTF-8 decoder undoes the encoder on scalar values. *)
Lemma utf8_decode_encode (cps : list Z) :
  Forall is_scalar cps -> utf8_decode (utf8_encode cps) = cps.
Proof.
  unfold utf8_decode.
  induction 1 as [|cp cps Hc _ IH]; [reflexivity|].
  simpl utf8_encode. rewrite utf8_decode_bytes by exact Hc.
  f_equal. exact IH.
Qed.

(** A well-formed string has scalar values only, and is the string of its
    scalar values. *)
Lemma well_formed_scalar_values (s : jsstring) :
  well_formed s = true ->
  Forall is_scalar (scalar_values s) /\ to_usv s = s.
Proof.
  unfold to_usv.
  remember (List.length s) as n eqn:Hn. revert s Hn.
  induction n as [n IH] using lt_wf_ind. intros s Hn W.
  destruct s as [|c s']; [split; [constructor|reflexivity]|].
  cbn [well_formed scalar_values] in *.
  destruct (is_high_surrogate c) eqn:Hh.
  - destruct s' as [|d s'']; [discriminate|].
    apply andb_true_iff in W as [Hl W].
    rewrite Hl.
    destruct (IH (List.length s'')) with (s := s'') as [F E];
      [subst n; simpl; lia | reflexivity | exact W |].
    unfold is_high_surrogate, is_low_surrogate in Hh, Hl.
    apply andb_true_iff in Hh as [h1 h2]. apply andb_true_iff in Hl as [l1 l2].
    apply Z.leb_le in h1, h2, l1, l2.
    split.
    + constructor; [unfold is_scalar; lia | exact F].
    + cbn [utf16_encode flat_map]. fold (utf16_encode (scalar_values s'')).
      rewrite E. unfold utf16_unit. zcmp. cbn [app].
      f_equal; [dm_lia | f_equal; dm_lia].
  - repeat (apply andb_true_iff in W as [W ?]).
    match goal with
    | X : negb _ = true |- _ => apply negb_true_iff in X; rewrite X
    end.
    destruct (IH (List.length s')) with (s := s') as [F E];
      [subst n; simpl; lia | reflexivity | assumption |].
    unfold is_high_surrogate, is_low_surrogate in *.
    apply Z.leb_le in W.
    match goal with X : (c <=? _) = true |- _ => apply Z.leb_le in X end.
    assert (S : ~ (0xD800 <= c <= 0xDFFF)).
    { intros [a b].
      destruct (Z.le_gt_cases c 0xDBFF) as [hi|hi].
      - rewrite (leb_true _ _ a), (leb_true _ _ hi) in Hh. discriminate.
      - match goal with X : _ && _ = false |- _ =>
          rewrite leb_true, leb_true in X by lia; discriminate end. }
    split.
    + constructor; [unfold is_scalar; lia | exact F].
    + cbn [utf16_encode flat_map]. fold (utf16_encode (scalar_values s')).
      rewrite E. unfold utf16_unit. zcmp. reflexivity.
Qed.

Lemma to_usv_well_formed (s : jsstring) : well_formed s = true -> to_usv s = s.
Proof. intros W; apply well_formed_scalar_values; exact W. Qed.

Lemma utf8_encode_ascii (s : jsstring) :
  Forall is_ascii s -> utf8_encode (scalar_values s) = s.
Proof.
  induction 1 as [|c s Hc _ IH]; [reflexivity|].
  unfold is_ascii in Hc. cbn [scalar_values].
  unfold is_high_surrogate, is_low_surrogate. zcmp. cbn [andb].
  cbn [utf8_encode flat_map]. fold (utf8_encode (scalar_values s)).
  rewrite IH. unfold utf8_bytes. zcmp. reflexivity.
Qed.

(** ** Percent-encoding *)

Lemma is_unreserved_spec (b : Z) :
  is_unreserved b = true ->
  b = 0x2A \/ b = 0x2D \/ b = 0x2E \/ b = 0x5F \/ 0x30 <= b <= 0x39
  \/ 0x41 <= b <= 0x5A \/ 0x61 <= b <= 0x7A.
Proof. unfold is_unreserved. btrue. lia. Qed.

Lemma hex_digit_spec (d : Z) :
  0 <= d < 16 ->
  (48 <= hex_digit d <= 57 \/ 65 <= hex_digit d <= 70)
  /\ Number.digit_of (hex_digit d) = Some d.
Proof.
  intros R. unfold hex_digit, Number.digit_of.
  destruct (d <? 10) eqn:E; [apply Z.ltb_lt in E|apply Z.ltb_ge in E].
  - split; [lia|]. zcmp. cbn [andb]. f_equal; lia.
  - split; [lia|]. zcmp. cbn [andb]. f_equal; lia.
Qed.

Lemma serialize_byte_form (b : Z) :
  is_byte b -> Forall is_form_char (serialize_byte b).
Proof.
  intros R. unfold is_byte in R. unfold serialize_byte, is_form_char, is_ascii.
  destruct (b =? 0x20); [repeat constructor; lia|].
  destruct (is_unreserved b) eqn:U.
  - apply is_unreserved_spec in U. repeat constructor; lia.
  - destruct (hex_digit_spec (b / 16)) as [A _]; [dm_lia|].
    destruct (hex_digit_spec (b mod 16)) as [B _]; [dm_lia|].
    repeat constructor; lia.
Qed.

Lemma serialize_bytes_form (bytes : list Z) :
  Forall is_byte bytes -> Forall is_form_char (serialize_bytes bytes).
Proof.
  induction 1 as [|b bs Hb _ IH]; simpl; [constructor|].
  apply Forall_app; split; [apply serialize_byte_form; exact Hb | exact IH].
Qed.

Lemma plus_to_space_other (b : Z) : b <> 0x2B -> plus_to_space b = b.
Proof. intros Hb. unfold plus_to_space. zcmp. reflexivity. Qed.

(** Reading back what the byte serializer wrote. *)
Lemma percent_decode_serialize (bytes : list Z) :
  Forall is_byte bytes ->
  percent_decode (map plus_to_space (serialize_bytes bytes)) = bytes.
Proof.
  induction 1 as [|b bs Hb _ IH]; [reflexivity|].
  unfold is_byte in Hb.
  cbn [serialize_bytes flat_map]. fold (serialize_bytes bs).
  rewrite map_app. unfold serialize_byte.
  destruct (b =? 0x20) eqn:E1; [apply Z.eqb_eq in E1|apply Z.eqb_neq in E1].
  { subst b. cbn. rewrite IH. reflexivity. }
  destruct (is_unreserved b) eqn:U.
  { apply is_unreserved_spec in U.
    cbn [map app]. rewrite plus_to_space_other by lia.
    cbn [percent_decode]. zcmp. rewrite IH. reflexivity. }
  destruct (hex_digit_spec (b / 16)) as [A A']; [dm_lia|].
  destruct (hex_digit_spec (b mod 16)) as [B B']; [dm_lia|].
  cbn [map app]. rewrite !plus_to_space_other by lia.
  cbn [percent_decode]. zcmp. rewrite A', B', IH. f_equal. dm_lia.
Qed.

End EncodingFacts.

Module URLSearchParamsFacts.
Import Encoding EncodingProps EncodingFacts.
Import URLSearchParams URLSearchParamsProps.

Lemma split_on_whole (sep : Z) (a : list Z) :
  Forall (fun b => b <> sep) a -> split_on sep a = [a].
Proof.
  induction 1 as [|b a Hb _ IH]; [reflexivity|].
  cbn [split_on]. rewrite eqb_false by exact Hb. rewrite IH. reflexivity.
Qed.

Lemma split_on_app (sep : Z) (a r : list Z) :
  Forall (fun b => b <> sep) a ->
  split_on sep (a ++ sep :: r) = a :: split_on sep r.
Proof.
  induction 1 as [|b a Hb _ IH]; cbn [app split_on].
  - rewrite Z.eqb_refl. reflexivity.
  - rewrite eqb_false by exact Hb. rewrite IH. reflexivity.
Qed.

Lemma name_value_app (n v : list Z) :
  Forall (fun b => b <> 0x3D) n -> name_value (n ++ 0x3D :: v) = (n, v).
Proof.
  induction 1 as [|b n Hb _ IH]; cbn [app name_value].
  - reflexivity.
  - rewrite eqb_false by exact Hb. rewrite IH. reflexivity.
Qed.

Lemma serialize_component_form (s : jsstring) :
  well_formed s = true -> Forall is_form_char (serialize_component s).
Proof.
  intros W. apply serialize_bytes_form, utf8_encode_range.
  apply well_formed_scalar_values; exact W.
Qed.

Lemma decode_serialize_component (s : jsstring) :
  well_formed s = true -> decode_component (serialize_component s) = s.
Proof.
  intros W. destruct (well_formed_scalar_values s W) as [F E].
  unfold decode_component, serialize_component.
  rewrite percent_decode_serialize by (apply utf8_encode_range; exact F).
  rewrite utf8_decode_encode by exact F. exact E.
Qed.

Lemma toString_cons (p : jsstring * jsstring) (rest : t) :
  toString (p :: rest)
  = match rest with
    | [] => field p
    | _ :: _ => field p ++ 0x26 :: toString rest
    end.
Proof.
  destruct p as [n v]. unfold field. cbn [toString fst snd].
  destruct rest; [rewrite app_nil_r; reflexivity|].
  rewrite <- app_assoc. reflexivity.
Qed.

Lemma field_form (p : jsstring * jsstring) :
  well_formed_pair p ->
  Forall is_ascii (field p) /\ Forall (fun b => b <> 0x26) (field p).
Proof.
  intros [Wn Wv]. unfold field.
  pose proof (serialize_component_form _ Wn) as Fn.
  pose proof (serialize_component_form _ Wv) as Fv.
  split; (apply Forall_app; split; [|constructor]);
    try (eapply Forall_impl; [|eassumption]; unfold is_form_char; tauto);
    unfold is_ascii; lia.
Qed.

Lemma parse_field (p : jsstring * jsstring) :
  well_formed_pair p ->
  match field p with
  | [] => []
  | _ :: _ =>
      let (n, v) := name_value (field p) in
      [(decode_component n, decode_component v)]
  end = [p].
Proof.
  intros [Wn Wv]. destruct p as [n v]. cbn [fst snd] in *.
  assert (E : name_value (field (n, v))
              = (serialize_component n, serialize_component v)).
  { unfold field. apply name_value_app.
    eapply Forall_impl; [|apply serialize_component_form; exact Wn].
    unfold is_form_char; tauto. }
  rewrite E. rewrite !decode_serialize_component by assumption.
  unfold field; cbn [fst snd].
  destruct (serialize_component n); reflexivity.
Qed.

Lemma toString_ascii (params : t) :
  Forall well_formed_pair params -> Forall is_ascii (toString params).
Proof.
  induction 1 as [|p rest Hp Hr IH]; [constructor|].
  rewrite toString_cons. destruct (field_form p Hp) as [A _].
  destruct rest; [exact A|].
  apply Forall_app; split; [exact A|].
  constructor; [unfold is_ascii; lia | exact IH].
Qed.

(** The parser undoes the serializer on pairs of well-formed strings. *)
Lemma parse_toString (params : t) :
  Forall well_formed_pair params -> parse_bytes (toString params) = params.
Proof.
  induction 1 as [|p rest Hp Hr IH]; [reflexivity|].
  rewrite toString_cons. destruct (field_form p Hp) as [_ N].
  unfold parse_bytes in *. destruct rest as [|p' rest'].
  - rewrite split_on_whole by exact N.
    cbn [flat_map]. rewrite parse_field by exact Hp. reflexivity.
  - rewrite split_on_app by exact N.
    cbn [flat_map]. rewrite parse_field by exact Hp. rewrite IH. reflexivity.
Qed.

(** [new URLSearchParams("?" + params.toString())] has the pairs of
    [params]. *)
Lemma of_string_toString (params : t) :
  Forall well_formed_pair params ->
  of_string (0x3F :: toString params) = params.
Proof.
  intros W. unfold of_string.
  rewrite utf8_encode_ascii by (apply toString_ascii; exact W).
  apply parse_toString; exact W.
Qed.

End URLSearchParamsFacts.

(* ===================================================================== *)
(** * The permalink codec: decoding *)
(* ===================================================================== *)

Module PermalinkFacts.
Import Encoding EncodingFacts URLSearchParams URLSearchParamsFacts Permalink.

Lemma parseNumber_range (value : option jsstring) (fallback lo hi : Z) :
  lo <= fallback <= hi -> lo <= parseNumber value fallback lo hi <= hi.
Proof.
  intros R. unfold parseNumber.
  destruct (Number.Number value); try exact R.
  apply clamp_bounds; lia.
Qed.

(** A parameter that is absent reads as [null], and [Number(null)] is 0:
    the fallback is not used. *)
Lemma parseNumber_null (fallback lo hi : Z) :
  parseNumber None fallback lo hi = clamp 0 lo hi.
Proof. reflexivity. Qed.

(** So a query string without [ms] decodes to size 0, whatever else it
    holds. *)
Lemma absent_size_reads_zero (location : Location) :
  URLSearchParams.get (js "ms") (URLSearchParams.of_string (search location))
  = None ->
  sizePercent (maskOptions (parsePermalinkState (Some location))) = 0.
Proof.
  intros E. cbn [parsePermalinkState maskOptions sizePercent].
  rewrite E. reflexivity.
Qed.

(** A value that is not a numeric literal takes the fallback. *)
Lemma parseNumber_NaN (value : option jsstring) (fallback lo hi : Z) :
  Number.Number value = Number.NaN ->
  parseNumber value fallback lo hi = fallback.
Proof. intros E. unfold parseNumber. rewrite E. reflexivity. Qed.

Lemma parseErrorLevel_null (fallback : ErrorLevel) :
  parseErrorLevel None fallback = fallback.
Proof. reflexivity. Qed.

Lemma parseErrorLevel_string_level (l fallback : ErrorLevel) :
  parseErrorLevel (Some (ErrorLevel_string l)) fallback = l.
Proof. destruct l; reflexivity. Qed.

(** A string that is none of the four codes takes the fallback. *)
Lemma parseErrorLevel_other (v : jsstring) (fallback : ErrorLevel) :
  (forall l, ErrorLevel_string l <> v) ->
  parseErrorLevel (Some v) fallback = fallback.
Proof.
  intros N. unfold parseErrorLevel, errorLevels.
  destruct (JsString.truthy v); [|reflexivity].
  cbn [find].
  repeat match goal with
  | |- context [JsString.eqb (ErrorLevel_string ?l) v] =>
      let E := fresh in
      destruct (JsString.eqb (ErrorLevel_string l) v) eqn:E;
      [apply JsStringFacts.eqb_eq in E; elim (N l E)|]
  end.
  reflexivity.
Qed.

(** C8.  Scenario D: the query string [?t=hi&e=Q&ms=10&mx=50&my=50&mo=50]
    decodes to text "hi", level Q and mask (10, 50, 50, 50), on whatever
    page it is read; and encoding that state gives the same query string
    again, at whatever address the page is then: the encoder reads nothing
    of the query string the page was opened with. *)
Theorem scenario_D_decodes_and_reencodes
    (path : jsstring) (elsewhere : Location) :
  let query := js "?t=hi&e=Q&ms=10&mx=50&my=50&mo=50" in
  let decoded :=
    parsePermalinkState (Some {| search := query; pathname := path |}) in
  decoded
  = {| text := js "hi";
       options := {| errorLevel := Level.Q |};
       maskOptions := {| sizePercent := 10; centerXPercent := 50;
                         centerYPercent := 50; opacityPercent := 50 |} |}
  /\ createPermalink (Some elsewhere) (text decoded) (options decoded)
       (maskOptions decoded)
     = query
  /\ createPermalink (Some elsewhere) (js "hi") {| errorLevel := Level.Q |}
       {| sizePercent := 10; centerXPercent := 50;
          centerYPercent := 50; opacityPercent := 50 |}
     = query.
Proof. repeat split; vm_compute; reflexivity. Qed.

(** C1.  The address without a query string: every parameter is absent.
    [e] and [t] take their fallbacks, but the four numeric fields do not
    take the defaults 18, 50, 50, 100: they come out as the lower bounds of
    their ranges, 0, 0, 0 and 10, and differ from [defaultMaskOptions]. *)
Theorem absent_numeric_parameters_decode_to_lower_bounds (path : jsstring) :
  let decoded :=
    parsePermalinkState (Some {| search := []; pathname := path |}) in
  decoded
  = {| text := js "https://example.com";
       options := defaultOptions;
       maskOptions := {| sizePercent := 0; centerXPercent := 0;
                         centerYPercent := 0; opacityPercent := 10 |} |}
  /\ maskOptions decoded <> defaultMaskOptions.
Proof. split; [reflexivity | discriminate]. Qed.

(** C9.  Whatever the query string holds, the four decoded mask fields are
    integers within [0,45], [0,100], [0,100] and [10,100]; a finite value
    is rounded to the nearest integer and then clamped, any other value
    gives the fallback. *)
Theorem decoded_mask_fields_in_range (window : option Location) :
  MaskOptions_in_range (maskOptions (parsePermalinkState window))
  /\ forall (value : option jsstring) (fallback lo hi : Z),
       match Number.Number value with
       | Number.Finite x =>
           parseNumber value fallback lo hi = clamp (Math_round x) lo hi
           /\ (x - (1 # 2) < inject_Z (Math_round x))%Q
           /\ (inject_Z (Math_round x) <= x + (1 # 2))%Q
       | _ => parseNumber value fallback lo hi = fallback
       end.
Proof.
  split.
  - destruct window as [location|]; unfold MaskOptions_in_range.
    + cbn [parsePermalinkState maskOptions sizePercent centerXPercent
           centerYPercent opacityPercent defaultMaskOptions].
      repeat split; apply parseNumber_range; lia.
    + cbn. lia.
  - intros value fallback lo hi. unfold parseNumber.
    destruct (Number.Number value) as [| |x]; try reflexivity.
    split; [reflexivity | apply Math_round_nearest].
Qed.

End PermalinkFacts.

(* ===================================================================== *)
(** * The permalink codec: encoding, then decoding *)
(* ===================================================================== *)

Module PermalinkRoundTrip.
Import Encoding EncodingProps EncodingFacts.
Import URLSearchParams URLSearchParamsProps URLSearchParamsFacts.
Import Permalink PermalinkProps PermalinkFacts.

(** Strings without surrogates are well formed. *)
Lemma well_formed_no_surrogate (s : jsstring) :
  Forall (fun c => 0 <= c < 0xD800) s -> well_formed s = true.
Proof.
  induction 1 as [|c s Hc _ IH]; [reflexivity|].
  cbn [well_formed]. unfold is_high_surrogate, is_low_surrogate.
  zcmp. cbn [andb negb]. exact IH.
Qed.

Lemma digits_of_digits (fuel : nat) (z : Z) (acc : jsstring) :
  Forall (fun c => 48 <= c <= 57) acc ->
  Forall (fun c => 48 <= c <= 57) (Number.digits_of fuel z acc).
Proof.
  revert z acc. induction fuel as [|fuel IH]; intros z acc F; [exact F|].
  cbn [Number.digits_of].
  assert (F' : Forall (fun c => 48 <= c <= 57) ((48 + z mod 10) :: acc))
    by (constructor; [dm_lia | exact F]).
  destruct (z <? 10); [exact F' | apply IH; exact F'].
Qed.

Lemma toString_well_formed (z : Z) : well_formed (Number.toString z) = true.
Proof.
  apply well_formed_no_surrogate. unfold Number.toString.
  assert (D : Forall (fun c => 0 <= c < 0xD800)
                (Number.digits_of (S (Z.to_nat (Z.log2 (Z.abs z))))
                   (Z.abs z) [])).
  { eapply Forall_impl; [|apply digits_of_digits; constructor].
    cbn beta; intros; lia. }
  destruct (z <? 0); [constructor; [lia | exact D] | exact D].
Qed.

Lemma ErrorLevel_string_well_formed (l : ErrorLevel) :
  well_formed (ErrorLevel_string l) = true.
Proof. destruct l; reflexivity. Qed.

Lemma set_six (v1 v2 v3 v4 v5 v6 : jsstring) :
  URLSearchParams.set (js "mo") v6
    (URLSearchParams.set (js "my") v5
       (URLSearchParams.set (js "mx") v4
          (URLSearchParams.set (js "ms") v3
             (URLSearchParams.set (js "e") v2
                (URLSearchParams.set (js "t") v1 URLSearchParams.empty)))))
  = [ (js "t", to_usv v1); (js "e", to_usv v2); (js "ms", to_usv v3);
      (js "mx", to_usv v4); (js "my", to_usv v5); (js "mo", to_usv v6) ].
Proof. reflexivity. Qed.

Lemma toString_truthy (p : jsstring * jsstring) (rest : URLSearchParams.t) :
  JsString.truthy (URLSearchParams.toString (p :: rest)) = true.
Proof.
  destruct p as [n v]. cbn [URLSearchParams.toString].
  destruct (serialize_component n); reflexivity.
Qed.

Lemma createPermalink_query (location : Location) (text : jsstring)
    (options : QrOptions) (maskOptions : MaskOptions) :
  createPermalink (Some location) text options maskOptions
  = 0x3F :: URLSearchParams.toString (permalink_pairs text options maskOptions).
Proof.
  unfold createPermalink. rewrite set_six.
  fold (permalink_pairs text options maskOptions).
  unfold permalink_pairs at 1. rewrite toString_truthy. reflexivity.
Qed.

Lemma to_usv_idempotent_well_formed (s : jsstring) :
  well_formed s = true -> well_formed (to_usv s) = true.
Proof. intros W. rewrite to_usv_well_formed by exact W. exact W. Qed.

(** What [new URLSearchParams] reads in a permalink of a well-formed text:
    the six pairs as they were set. *)
Lemma permalink_params (location : Location) (text : jsstring)
    (options : QrOptions) (maskOptions : MaskOptions) :
  well_formed text = true ->
  URLSearchParams.of_string
    (createPermalink (Some location) text options maskOptions)
  = [ (js "t", text);
      (js "e", ErrorLevel_string (errorLevel options));
      (js "ms", Number.toString (sizePercent maskOptions));
      (js "mx", Number.toString (centerXPercent maskOptions));
      (js "my", Number.toString (centerYPercent maskOptions));
      (js "mo", Number.toString (opacityPercent maskOptions)) ].
Proof.
  intros W. rewrite createPermalink_query.
  assert (E : permalink_pairs text options maskOptions
              = [ (js "t", text);
                  (js "e", ErrorLevel_string (errorLevel options));
                  (js "ms", Number.toString (sizePercent maskOptions));
                  (js "mx", Number.toString (centerXPercent maskOptions));
                  (js "my", Number.toString (centerYPercent maskOptions));
                  (js "mo", Number.toString (opacityPercent maskOptions)) ]).
  { unfold permalink_pairs.
    rewrite (to_usv_well_formed text) by exact W.
    rewrite to_usv_well_formed by apply ErrorLevel_string_well_formed.
    rewrite !to_usv_well_formed by apply toString_well_formed.
    reflexivity. }
  rewrite E. apply of_string_toString.
  repeat constructor; cbn [fst snd];
    first [ exact W | apply ErrorLevel_string_well_formed
          | apply toString_well_formed | reflexivity ].
Qed.

Lemma forallb_upto (P : Z -> bool) (n : nat) :
  forallb P (map Z.of_nat (seq 0 n)) = true ->
  forall z, 0 <= z < Z.of_nat n -> P z = true.
Proof.
  intros F z R. rewrite forallb_forall in F. apply F.
  rewrite <- (Z2Nat.id z) by lia. apply in_map, in_seq. lia.
Qed.

Lemma reads_back_percent (z : Z) : 0 <= z <= 100 -> reads_back z = true.
Proof.
  intros R. apply (forallb_upto reads_back 101); [vm_compute; reflexivity|lia].
Qed.

Lemma parseNumber_toString (z fallback lo hi : Z) :
  0 <= z <= 100 -> lo <= z <= hi ->
  parseNumber (Some (Number.toString z)) fallback lo hi = z.
Proof.
  intros R B. pose proof (reads_back_percent z R) as E.
  unfold reads_back in E. unfold parseNumber.
  destruct (Number.Number (Some (Number.toString z))); try discriminate.
  apply Z.eqb_eq in E. rewrite E. apply clamp_id; exact B.
Qed.

Lemma get_six (v1 v2 v3 v4 v5 v6 : jsstring) :
  let params := six_pairs v1 v2 v3 v4 v5 v6 in
  URLSearchParams.get (js "t") params = Some v1
  /\ URLSearchParams.get (js "e") params = Some v2
  /\ URLSearchParams.get (js "ms") params = Some v3
  /\ URLSearchParams.get (js "mx") params = Some v4
  /\ URLSearchParams.get (js "my") params = Some v5
  /\ URLSearchParams.get (js "mo") params = Some v6.
Proof. repeat split; reflexivity. Qed.

(** The text of a permalink is read back as it was written, untrimmed,
    whatever the other fields are. *)
Lemma decoded_text (location : Location) (path : jsstring)
    (s : PermalinkState) :
  well_formed (text s) = true ->
  text (decode_encode location path s) = text s.
Proof.
  intros W. unfold decode_encode, parsePermalinkState.
  cbn [search text]. rewrite permalink_params by exact W.
  reflexivity.
Qed.

(** C2, as the program has it.  In a browser, for every state whose text
    is well formed (no unpaired surrogate), whose level is one of the four
    and whose integer percentages lie in [0,45], [0,100], [0,100] and
    [10,100], decoding the query string made from the state gives the state
    back. *)
Theorem decode_encode_in_range_well_formed
    (location : Location) (path : jsstring) (s : PermalinkState) :
  well_formed (text s) = true ->
  MaskOptions_in_range (maskOptions s) ->
  decode_encode location path s = s.
Proof.
  intros W (Rs & Rx & Ry & Ro).
  destruct s as [t o m]. cbn [text options maskOptions] in *.
  unfold decode_encode, parsePermalinkState.
  cbn [search text options maskOptions].
  rewrite permalink_params by exact W.
  destruct (get_six t (ErrorLevel_string (errorLevel o))
              (Number.toString (sizePercent m))
              (Number.toString (centerXPercent m))
              (Number.toString (centerYPercent m))
              (Number.toString (opacityPercent m)))
    as (G1 & G2 & G3 & G4 & G5 & G6).
  unfold six_pairs in *.
  rewrite G1, G2, G3, G4, G5, G6.
  rewrite parseErrorLevel_string_level.
  rewrite !parseNumber_toString by lia.
  destruct o, m; reflexivity.
Qed.

Lemma decode_encode_in_range_well_formed_witness :
  well_formed (js " hi there ") = true
  /\ MaskOptions_in_range
       {| sizePercent := 45; centerXPercent := 0;
          centerYPercent := 100; opacityPercent := 10 |}
  /\ decode_encode here (js "/")
       {| text := js " hi there ";
          options := {| errorLevel := Level.H |};
          maskOptions := {| sizePercent := 45; centerXPercent := 0;
                            centerYPercent := 100; opacityPercent := 10 |} |}
     = {| text := js " hi there ";
          options := {| errorLevel := Level.H |};
          maskOptions := {| sizePercent := 45; centerXPercent := 0;
                            centerYPercent := 100; opacityPercent := 10 |} |}.
Proof.
  assert (R : MaskOptions_in_range
                {| sizePercent := 45; centerXPercent := 0;
                   centerYPercent := 100; opacityPercent := 10 |})
    by (unfold MaskOptions_in_range; cbn; lia).
  split; [reflexivity|]. split; [exact R|].
  apply (decode_encode_in_range_well_formed here (js "/")
           {| text := js " hi there ";
              options := {| errorLevel := Level.H |};
              maskOptions := {| sizePercent := 45; centerXPercent := 0;
                                centerYPercent := 100;
                                opacityPercent := 10 |} |});
    [reflexivity | exact R].
Defined.

(** A text that is one unpaired surrogate is a string and its state is in
    range, yet the text comes back as U+FFFD: the round trip needs the text
    to be well formed. *)
Lemma decode_encode_unpaired_surrogate :
  MaskOptions_in_range (maskOptions unpaired_surrogate_state)
  /\ text (decode_encode here (js "/") unpaired_surrogate_state) = [0xFFFD]
  /\ decode_encode here (js "/") unpaired_surrogate_state
     <> unpaired_surrogate_state.
Proof.
  split; [unfold MaskOptions_in_range; cbn; lia|].
  split; [vm_compute; reflexivity|].
  intros E. apply (f_equal text) in E. vm_compute in E. discriminate.
Qed.

End PermalinkRoundTrip.

(* ===================================================================== *)
(** * The verification classifier and the mask geometry *)
(* ===================================================================== *)

Module MaskFacts.
Import Mask.

(** [success] is reported for one decoded text only. *)
Lemma classify_success_iff (text : jsstring) (decoded : option jsstring) :
  classify text decoded = success
  <-> JsString.trim text <> [] /\ decoded = Some (JsString.trim text).
Proof.
  unfold classify.
  destruct (JsString.trim text) as [|c n]; cbn [JsString.truthy negb].
  - split; [discriminate | intros [N _]; congruence].
  - destruct decoded as [d|].
    + destruct (JsString.eqb d (c :: n)) eqn:E.
      * apply JsStringFacts.eqb_eq in E. subst d.
        split; [split; [discriminate | reflexivity] | reflexivity].
      * apply JsStringFacts.eqb_neq in E.
        split; [discriminate | intros [_ K]; congruence].
    + cbn. split; [discriminate | intros [_ K]; discriminate].
Qed.

(** C4.  The classifier: [untested] when the trimmed text is empty;
    otherwise [success] when the decoded text is the trimmed text, code
    unit for code unit; otherwise [failed], which covers a decoder that
    found no code. *)
Theorem classify_three_cases (text : jsstring) (decoded : option jsstring) :
  (JsString.trim text = [] -> classify text decoded = untested)
  /\ (JsString.trim text <> [] -> decoded = Some (JsString.trim text) ->
      classify text decoded = success)
  /\ (JsString.trim text <> [] -> decoded <> Some (JsString.trim text) ->
      classify text decoded = failed)
  /\ (JsString.trim text <> [] -> classify text None = failed).
Proof.
  unfold classify.
  destruct (JsString.trim text) as [|c n] eqn:T; cbn [JsString.truthy negb].
  - repeat split; congruence.
  - split; [discriminate|]. split; [|split].
    + intros _ ->. rewrite JsStringFacts.eqb_refl. reflexivity.
    + intros _ N. destruct decoded as [d|].
      * destruct (JsString.eqb d (c :: n)) eqn:E; [|reflexivity].
        apply JsStringFacts.eqb_eq in E. congruence.
      * reflexivity.
    + reflexivity.
Qed.

Lemma classify_three_cases_witness :
  classify (js "  ") (Some (js "x")) = untested
  /\ classify (js " Hi ") (Some (js "Hi")) = success
  /\ classify (js " Hi ") (Some (js "hi")) = failed
  /\ classify (js " Hi ") None = failed.
Proof.
  split; [|split; [|split]].
  - apply (proj1 (classify_three_cases (js "  ") (Some (js "x")))).
    reflexivity.
  - apply (proj1 (proj2 (classify_three_cases (js " Hi ") (Some (js "Hi")))));
      [discriminate | reflexivity].
  - apply (proj1 (proj2 (proj2
             (classify_three_cases (js " Hi ") (Some (js "hi"))))));
      [discriminate | discriminate].
  - apply (proj2 (proj2 (proj2 (classify_three_cases (js " Hi ") None)))).
    discriminate.
Defined.

(** Rounding a hundredth, in integers. *)
Lemma Math_round_hundredths (k : Z) :
  Math_round (inject_Z k / 100) = (k + 50) / 100.
Proof.
  assert (E : (inject_Z k / 100 == k # 100)%Q).
  { unfold Qeq, Qdiv, Qmult, Qinv, inject_Z; cbn [Qnum Qden]. lia. }
  unfold Math_round. rewrite E. fold (Math_round (k # 100)).
  rewrite Math_round_ratio. dm_lia.
Qed.

Lemma Math_round_corner (k side : Z) :
  Math_round (inject_Z k / 100 - inject_Z side / 2)
  = (k - 50 * side + 50) / 100.
Proof.
  assert (E : (inject_Z k / 100 - inject_Z side / 2
               == (k - 50 * side) # 100)%Q).
  { unfold Qeq, Qminus, Qplus, Qopp, Qdiv, Qmult, Qinv, inject_Z;
      cbn [Qnum Qden]. lia. }
  unfold Math_round. rewrite E. fold (Math_round ((k - 50 * side) # 100)).
  rewrite Math_round_ratio. dm_lia.
Qed.

(** The side fits the shorter dimension as long as the size is at most
    100 percent. *)
Lemma side_fits (shorter size : Z) :
  0 < shorter -> 0 < size <= 100 ->
  1 <= Z.max 1 ((shorter * size + 50) / 100) <= shorter.
Proof.
  intros Hs Hp.
  assert (shorter * size <= shorter * 100) by nia.
  assert (0 <= shorter * size) by nia.
  dm_lia.
Qed.


Lemma map_indexed_length {A B : Type} (f : Z -> A -> B) (i : Z)
    (l : list A) :
  List.length (map_indexed f i l) = List.length l.
Proof.
  revert i. induction l as [|x l IH]; intros i; cbn; [reflexivity|].
  f_equal. apply IH.
Qed.

Lemma map_indexed_nth_error {A B : Type} (f : Z -> A -> B) (i : Z)
    (l : list A) (n : nat) :
  nth_error (map_indexed f i l) n
  = option_map (f (i + Z.of_nat n)) (nth_error l n).
Proof.
  revert i n. induction l as [|x l IH]; intros i [|n]; cbn [map_indexed];
    try reflexivity.
  - cbn. rewrite Z.add_0_r. reflexivity.
  - cbn [nth_error]. rewrite IH. do 2 f_equal. lia.
Qed.



(** C6.  With [sizePercent = 0] nothing is painted: the canvas that is
    exported and decoded has the size and the pixels of the base image. *)
Theorem zero_size_mask_leaves_image `{Platform}
    (image : ImageData) (m : MaskOptions) :
  sizePercent m = 0 ->
  maskedCanvas image m = image
  /\ forall sourceDataUrl text,
       loadImage sourceDataUrl = Some image -> getContext_2d = true ->
       option_map maskedDataUrl (applyMaskAndTest sourceDataUrl text m)
       = Some (canvas_toDataURL image).
Proof.
  intros Z0.
  assert (E : maskedCanvas image m = image).
  { unfold maskedCanvas, maskSquare. rewrite Z0. cbn.
    destruct image; reflexivity. }
  split; [exact E|].
  intros src text L C. unfold applyMaskAndTest. rewrite L, C, E.
  reflexivity.
Qed.

Lemma zero_size_mask_leaves_image_witness :
  let image := {| width := 4; height := 4; data := repeat white 16 |} in
  let m := {| sizePercent := 0; centerXPercent := 50;
              centerYPercent := 50; opacityPercent := 100 |} in
  sizePercent m = 0
  /\ @maskedCanvas sample_platform image m = image.
Proof.
  split; [reflexivity|].
  apply (@zero_size_mask_leaves_image sample_platform
           {| width := 4; height := 4; data := repeat white 16 |}
           {| sizePercent := 0; centerXPercent := 50;
              centerYPercent := 50; opacityPercent := 100 |}).
  reflexivity.
Defined.

End MaskFacts.

(* ===================================================================== *)
(** * The effect pipeline *)
(* ===================================================================== *)

Module AppFacts.
Import App AppProps.

Lemma deactivate_ids (id : nat) (rs : list Run) :
  map run_id (deactivate id rs) = map run_id rs.
Proof.
  unfold deactivate. rewrite map_map. apply map_ext.
  intros run. destruct (Nat.eqb (run_id run) id); reflexivity.
Qed.

Lemma deactivate_In (id : nat) (rs : list Run) (run' : Run) :
  In run' (deactivate id rs) ->
  exists run,
    In run rs /\ run_id run' = run_id run /\ task run' = task run
    /\ (active run' = true -> active run = true /\ run_id run <> id).
Proof.
  unfold deactivate. rewrite in_map_iff. intros (run & E & I).
  exists run. split; [exact I|].
  destruct (Nat.eqb (run_id run) id) eqn:B; subst run'; cbn.
  - repeat split; discriminate.
  - apply Nat.eqb_neq in B. repeat split; assumption.
Qed.

Lemma invariant_run_cleanup (c : option nat) (w : World) :
  invariant w -> invariant (run_cleanup c w).
Proof.
  intros [I1 I2 I3 I4]. destruct c as [id|]; [|constructor; assumption].
  constructor; cbn [run_cleanup with_runs runs next].
  - intros run' Hin. apply deactivate_In in Hin as (run & I & E & _).
    rewrite E. apply I1, I.
  - rewrite deactivate_ids. exact I2.
  - intros run' Hin A. apply deactivate_In in Hin as (run & I & E & T & K).
    destruct (K A) as [A' _]. specialize (I3 run I A').
    unfold current in *. cbn. rewrite T, E. exact I3.
  - intros run' nt o Hin T.
    apply deactivate_In in Hin as (run & I & _ & T' & _).
    apply (I4 run nt o I). congruence.
Qed.

(** After an effect's cleanup, none of its runs is active. *)
Lemma quiet_after_cleanup (w : World) :
  invariant w ->
  quiet true (run_cleanup (encode_cleanup w) w)
  /\ quiet false (run_cleanup (mask_cleanup w) w).
Proof.
  intros [I1 I2 I3 I4]. split; intros run' Hin K;
    destruct (active run') eqn:A; try reflexivity; exfalso.
  - destruct (encode_cleanup w) as [id|] eqn:C; cbn in Hin.
    + apply deactivate_In in Hin as (run & I & E & T & N).
      destruct (N A) as [A' Ne]. specialize (I3 run I A').
      unfold current in I3. unfold is_encode in K. rewrite T in K.
      destruct (task run); [|discriminate]. congruence.
    + specialize (I3 run' Hin A). unfold current in I3.
      unfold is_encode in K. destruct (task run'); [|discriminate].
      congruence.
  - destruct (mask_cleanup w) as [id|] eqn:C; cbn in Hin.
    + apply deactivate_In in Hin as (run & I & E & T & N).
      destruct (N A) as [A' Ne]. specialize (I3 run I A').
      unfold current in I3. unfold is_encode in K. rewrite T in K.
      destruct (task run); [discriminate|]. congruence.
    + specialize (I3 run' Hin A). unfold current in I3.
      unfold is_encode in K. destruct (task run'); [discriminate|].
      congruence.
Qed.

Lemma quiet_run_cleanup (encode : bool) (c : option nat) (w : World) :
  quiet encode w -> quiet encode (run_cleanup c w).
Proof.
  intros Q. destruct c as [id|]; [|exact Q].
  intros run' Hin K. cbn in Hin.
  apply deactivate_In in Hin as (run & I & _ & T & N).
  destruct (active run') eqn:A; [|reflexivity].
  destruct (N eq_refl) as [A' _].
  rewrite <- A'. apply Q; [exact I|].
  unfold is_encode in *. rewrite <- T. exact K.
Qed.

(** The invariant reads only the runs, the counter and the two cleanups. *)
Lemma invariant_same (w w' : World) :
  runs w' = runs w -> (next w <= next w')%nat ->
  encode_cleanup w' = encode_cleanup w -> mask_cleanup w' = mask_cleanup w ->
  invariant w -> invariant w'.
Proof.
  intros R N E K [I1 I2 I3 I4]. constructor.
  - intros run Hin. rewrite R in Hin. specialize (I1 run Hin). lia.
  - rewrite R. exact I2.
  - intros run Hin A. rewrite R in Hin. specialize (I3 run Hin A).
    unfold current in *. rewrite E, K. exact I3.
  - intros run nt o Hin. rewrite R in Hin. apply I4. exact Hin.
Qed.

Lemma quiet_same (encode : bool) (w w' : World) :
  runs w' = runs w -> quiet encode w -> quiet encode w'.
Proof. intros R Q run Hin. rewrite R in Hin. apply Q. exact Hin. Qed.

Lemma fresh_id_distinct (w : World) (t : Task) :
  invariant w ->
  NoDup (map run_id
           (runs w ++ [{| run_id := next w; task := t; active := true |}])).
Proof.
  intros [I1 I2 _ _]. rewrite map_app. cbn [map run_id].
  apply NoDup_app; [exact I2 | repeat constructor; intros [] | ].
  intros id Hin [<-|[]].
  apply in_map_iff in Hin as (run & E & I). specialize (I1 run I). lia.
Qed.

Lemma invariant_encode_effect (s : State) (w : World) :
  invariant w -> quiet true w -> invariant (encode_effect s w).
Proof.
  intros I Q. pose proof I as [I1 I2 I3 I4]. unfold encode_effect.
  destruct (JsString.truthy (JsString.trim (text s))) eqn:T; cbn [negb].
  - constructor; cbn.
    + intros run [Hin|[<-|[]]]%in_app_or; [specialize (I1 run Hin)|cbn]; lia.
    + apply (fresh_id_distinct w); exact I.
    + intros run [Hin|[<-|[]]]%in_app_or A.
      * specialize (I3 run Hin A). unfold current in *. cbn.
        destruct (task run) eqn:K; [|exact I3].
        specialize (Q run Hin). unfold is_encode in Q. rewrite K in Q.
        rewrite Q in A by reflexivity. discriminate.
      * reflexivity.
    + intros run nt o [Hin|[<-|[]]]%in_app_or K.
      * apply (I4 run nt o Hin K).
      * cbn in K. injection K as <- _. exists (text s).
        split; [reflexivity|]. intros E. rewrite E in T. discriminate.
  - constructor; cbn.
    + exact I1.
    + exact I2.
    + intros run Hin A. specialize (I3 run Hin A). unfold current in *. cbn.
      destruct (task run) eqn:K; [|exact I3].
      specialize (Q run Hin). unfold is_encode in Q. rewrite K in Q.
      rewrite Q in A by reflexivity. discriminate.
    + exact I4.
Qed.

Lemma invariant_mask_effect (s : State) (w : World) :
  invariant w -> quiet false w -> invariant (mask_effect s w).
Proof.
  intros I Q. pose proof I as [I1 I2 I3 I4]. unfold mask_effect.
  destruct (JsString.truthy (qrDataUrl s)) eqn:T; cbn [negb].
  - constructor; cbn.
    + intros run [Hin|[<-|[]]]%in_app_or; [specialize (I1 run Hin)|cbn]; lia.
    + apply (fresh_id_distinct w); exact I.
    + intros run [Hin|[<-|[]]]%in_app_or A.
      * specialize (I3 run Hin A). unfold current in *. cbn.
        destruct (task run) eqn:K; [exact I3|].
        specialize (Q run Hin). unfold is_encode in Q. rewrite K in Q.
        rewrite Q in A by reflexivity. discriminate.
      * reflexivity.
    + intros run nt o [Hin|[<-|[]]]%in_app_or K.
      * apply (I4 run nt o Hin K).
      * discriminate.
  - constructor; cbn.
    + exact I1.
    + exact I2.
    + intros run Hin A. specialize (I3 run Hin A). unfold current in *. cbn.
      destruct (task run) eqn:K; [exact I3|].
      specialize (Q run Hin). unfold is_encode in Q. rewrite K in Q.
      rewrite Q in A by reflexivity. discriminate.
    + exact I4.
Qed.

(** The second effect starts no run of the third. *)
Lemma quiet_mask_encode_effect (s : State) (w : World) :
  quiet false w -> quiet false (encode_effect s w).
Proof.
  intros Q. unfold encode_effect.
  destruct (JsString.truthy (JsString.trim (text s))); cbn [negb].
  - intros run Hin K. cbn in Hin.
    apply in_app_or in Hin as [Hin|[<-|[]]]; [apply Q; assumption|].
    discriminate.
  - exact Q.
Qed.

Section WithPlatform.
Context `{Platform}.

Lemma invariant_permalink_effect (s : State) (w : World) :
  invariant w -> invariant (permalink_effect s w).
Proof.
  intros I. unfold permalink_effect. destruct window; [|exact I].
  apply (invariant_same w);
      [reflexivity | cbn; lia | reflexivity | reflexivity | exact I].
Qed.

Lemma quiet_permalink_effect (encode : bool) (s : State) (w : World) :
  quiet encode w -> quiet encode (permalink_effect s w).
Proof.
  intros Q. unfold permalink_effect. destruct window; exact Q.
Qed.

(** Running effects keeps the invariant. *)
Lemma invariant_runEffects (p e m : bool) (w : World) :
  invariant w -> invariant (runEffects p e m w).
Proof.
  intros I. unfold runEffects.
  set (s := state w).
  set (w1 := if e then run_cleanup (encode_cleanup w) w else w).
  set (w2 := if m then run_cleanup (mask_cleanup w1) w1 else w1).
  set (w3 := if p then permalink_effect s w2 else w2).
  set (w4 := if e then encode_effect s w3 else w3).
  set (w5 := if m then mask_effect s w4 else w4).
  assert (I1 : invariant w1)
    by (subst w1; destruct e; [apply invariant_run_cleanup|]; exact I).
  assert (Q1 : e = true -> quiet true w1).
  { intros E. subst w1. rewrite E. apply quiet_after_cleanup; exact I. }
  assert (I2 : invariant w2)
    by (subst w2; destruct m; [apply invariant_run_cleanup|]; exact I1).
  assert (Q2 : e = true -> quiet true w2).
  { intros E. subst w2. destruct m; [apply quiet_run_cleanup|]; auto. }
  assert (M2 : m = true -> quiet false w2).
  { intros E. subst w2. rewrite E. apply quiet_after_cleanup; exact I1. }
  assert (I3 : invariant w3).
  { subst w3. destruct p; [apply invariant_permalink_effect|]; exact I2. }
  assert (Q3 : e = true -> quiet true w3).
  { intros E. subst w3. destruct p; [apply quiet_permalink_effect|]; auto. }
  assert (M3 : m = true -> quiet false w3).
  { intros E. subst w3. destruct p; [apply quiet_permalink_effect|]; auto. }
  assert (I4 : invariant w4).
  { subst w4. destruct e; [apply invariant_encode_effect|]; auto. }
  assert (M4 : m = true -> quiet false w4).
  { intros E. subst w4. destruct e; [apply quiet_mask_encode_effect|]; auto. }
  assert (I5 : invariant w5).
  { subst w5. destruct m; [apply invariant_mask_effect|]; auto. }
  apply (invariant_same w5);
    [reflexivity | cbn; lia | reflexivity | reflexivity | exact I5].
Qed.

(** Taking runs away keeps the identifiers distinct. *)
Lemma ids_distinct_filter (keep : Run -> bool) (rs : list Run) :
  NoDup (map run_id rs) -> NoDup (map run_id (filter keep rs)).
Proof.
  induction rs as [|run rs IH]; cbn; [auto|].
  intros N. inversion N as [|? ? Hx Hl]; subst.
  destruct (keep run); cbn; [constructor|]; auto.
  intros Hin. apply Hx. apply in_map_iff in Hin as (y & E & I).
  apply in_map_iff. exists y. split; [exact E|].
  apply filter_In in I. tauto.
Qed.

Lemma invariant_settle (id : nat) (w : World) :
  invariant w -> invariant (settle id w).
Proof.
  intros I. unfold settle.
  destruct (find (fun r => Nat.eqb (run_id r) id) (runs w)) as [run|];
    [|exact I].
  set (w' := with_runs
               (filter (fun r => negb (Nat.eqb (run_id r) id)) (runs w)) w).
  assert (I' : invariant w').
  { destruct I as [I1 I2 I3 I4]. constructor; cbn.
    - intros r Hin. apply filter_In in Hin. apply I1; tauto.
    - apply ids_distinct_filter; exact I2.
    - intros r Hin A. apply filter_In in Hin. apply (I3 r); tauto.
    - intros r nt o Hin. apply filter_In in Hin. apply (I4 r); tauto. }
  destruct (task run);
    (apply (invariant_same w');
       [reflexivity | cbn; lia | reflexivity | reflexivity | exact I']).
Qed.

Lemma invariant_step (w : World) (e : Event) :
  invariant w -> invariant (step w e).
Proof.
  intros I. destruct e; cbn [step];
    try (apply (invariant_same w);
      [reflexivity | cbn; lia | reflexivity | reflexivity | exact I]).
  - apply invariant_runEffects; exact I.
  - apply invariant_runEffects; exact I.
  - apply invariant_settle; exact I.
Qed.

Lemma invariant_mount : invariant mount.
Proof.
  constructor; cbn.
  - intros run [].
  - constructor.
  - intros run [].
  - intros run nt o [].
Qed.

Lemma invariant_fold (events : list Event) (w : World) :
  invariant w -> invariant (fold_left step events w).
Proof.
  revert w. induction events as [|e events IH]; intros w I; [exact I|].
  cbn [fold_left]. apply IH, invariant_step, I.
Qed.

(** The invariant holds after every sequence of events. *)
Lemma invariant_exec (events : list Event) : invariant (exec events).
Proof. apply invariant_fold, invariant_mount. Qed.

Lemma find_by_id (rs : list Run) (run : Run) :
  NoDup (map run_id rs) -> In run rs ->
  find (fun r => Nat.eqb (run_id r) (run_id run)) rs = Some run.
Proof.
  induction rs as [|x rs IH]; cbn; [intros _ []|].
  intros N [->|Hin].
  - rewrite Nat.eqb_refl. reflexivity.
  - inversion N as [|? ? Hx Hl]; subst.
    destruct (Nat.eqb (run_id x) (run_id run)) eqn:E.
    + apply Nat.eqb_eq in E. exfalso. apply Hx. rewrite E.
      apply in_map. exact Hin.
    + apply IH; assumption.
Qed.

(** The handlers of a run whose flag is cleared set nothing. *)
Lemma settle_inactive (w : World) (run : Run) :
  invariant w -> In run (runs w) -> active run = false ->
  state (settle (run_id run) w) = state w.
Proof.
  intros I Hin A. unfold settle.
  rewrite (find_by_id (runs w) run (ids_distinct w I) Hin).
  destruct (task run); cbn; rewrite A.
  - destruct (Mask.makeQrDataUrl normalizedText options0); reflexivity.
  - destruct (Mask.applyMaskAndTest qrDataUrl0 text0 maskOptions0);
      reflexivity.
Qed.

(** The handlers of the live run do set the state: a fulfilled encoding
    becomes the base image. *)
Lemma settle_live_encoding (w : World) (run : Run)
    (normalizedText dataUrl : jsstring) (options : QrOptions) :
  invariant w -> In run (runs w) -> active run = true ->
  task run = makeQrDataUrl_call normalizedText options ->
  Mask.makeQrDataUrl normalizedText options = Some dataUrl ->
  qrDataUrl (state (settle (run_id run) w)) = dataUrl.
Proof.
  intros I Hin A T E. unfold settle.
  rewrite (find_by_id (runs w) run (ids_distinct w I) Hin).
  rewrite T, E. cbn. rewrite A. reflexivity.
Qed.

(** What a flush registers for an effect it runs again is no run that was
    pending before. *)
Lemma flush_registers_fresh (w : World) :
  (encode_changed (state w) w = true ->
   forall id, encode_cleanup (flushEffects w) = Some id -> (next w <= id)%nat)
  /\ (mask_changed (state w) w = true ->
      forall id, mask_cleanup (flushEffects w) = Some id -> (next w <= id)%nat).
Proof.
  unfold flushEffects, runEffects, permalink_effect, encode_effect,
    mask_effect, run_cleanup.
  split; intros -> id;
    repeat (cbn;
            match goal with
            | |- context [if ?b then _ else _] => destruct b
            | |- context [match ?x with Some _ => _ | None => _ end] =>
                destruct x
            end);
    cbn; intros E; try discriminate; injection E as <-; lia.
Qed.

(** What the flags do achieve.  Whatever the order of edits, effect
    flushes and promise completions: (1) a pending run that is not the one
    registered by the latest execution of its effect has its flag cleared,
    and its completion, fulfilled or rejected, leaves every state variable
    as it is; (2) when the dependencies of an effect changed, the flush
    that runs it again makes every run it had pending such a run. *)
Lemma cleared_run_is_discarded (events : list Event) :
  let w := exec events in
  (forall run,
      In run (runs w) -> ~ current w run ->
      active run = false
      /\ state (step w (Settle (run_id run))) = state w)
  /\ (forall run,
        In run (runs w) ->
        (if is_encode run then encode_changed (state w) w
         else mask_changed (state w) w) = true ->
        ~ current (flushEffects w) run).
Proof.
  cbv zeta. pose proof (invariant_exec events) as I. split.
  - intros run Hin N.
    assert (A : active run = false).
    { destruct (active run) eqn:A; [|reflexivity].
      elim N. apply (active_is_current _ I run Hin A). }
    split; [exact A|]. cbn [step]. apply settle_inactive; assumption.
  - intros run Hin C K.
    pose proof (ids_below_next _ I run Hin) as B.
    destruct (flush_registers_fresh (exec events)) as [Fe Fm].
    unfold current, is_encode in *. destruct (task run).
    + specialize (Fe C _ K). lia.
    + specialize (Fm C _ K). lia.
Qed.

(** C3, as the program has it.  When the encoding promise of a run
    rejects and the run is still the live one, the handler sets the one
    advisory message, clears the base image and the masked image, and sets
    the decode status to [failed], which the page shows as its "Unreable"
    line; the text and the options stay, and so do the other pending runs.
    When the run has been superseded, the rejection changes nothing. *)
Theorem encode_failure_resets_derived_state
    (events : list Event) (run : Run)
    (normalizedText : jsstring) (options : QrOptions) :
  let w := exec events in
  let w' := step w (Settle (run_id run)) in
  let message := js "Failed to generate QR code. Please check your inputs." in
  In run (runs w) ->
  task run = makeQrDataUrl_call normalizedText options ->
  Mask.makeQrDataUrl normalizedText options = None ->
  (active run = true ->
   errorMessage (state w') = message
   /\ shownError (state w') = Some message
   /\ qrDataUrl (state w') = []
   /\ maskedDataUrl (state w') = []
   /\ currentPreview (state w') = []
   /\ decodeStatus (state w') = failed
   /\ shownDecodeStatus (state w') = Some (Mask.getDecodeMessage failed)
   /\ text (state w') = text (state w)
   /\ App.options (state w') = App.options (state w)
   /\ maskOptions (state w') = maskOptions (state w)
   /\ runs w' = filter (fun r => negb (Nat.eqb (run_id r) (run_id run)))
                  (runs w))
  /\ (active run = false -> state w' = state w).
Proof.
  cbv zeta. intros Hin T F.
  pose proof (invariant_exec events) as I.
  split.
  - intros A. cbn [step]. unfold settle.
    rewrite (find_by_id _ run (ids_distinct _ I) Hin).
    rewrite T, F. cbn. rewrite A. cbn. repeat split; reflexivity.
  - intros A. cbn [step]. apply settle_inactive; assumption.
Qed.

(** C10, as the program has it.  For a well-formed text with white space
    at an end: the permalink holds the text untrimmed and decoding gives it
    back, so it differs from the trimmed text; every call of the encoder is
    made with a trimmed, non-empty text, the trimmed text of the render; and
    the classifier reports [success] exactly when the decoded text is the
    trimmed text. *)
Theorem whitespace_kept_in_url_not_in_code
    (location : Permalink.Location) (path text : jsstring)
    (options : QrOptions) (maskOptions : MaskOptions) :
  let decoded :=
    PermalinkProps.decode_encode location path
      {| Permalink.text := text; Permalink.options := options;
         Permalink.maskOptions := maskOptions |} in
  Encoding.well_formed text = true ->
  JsString.trim text <> text ->
  Permalink.text decoded = text
  /\ Permalink.text decoded <> JsString.trim text
  /\ (forall events run normalizedText options',
        In run (runs (exec events)) ->
        task run = makeQrDataUrl_call normalizedText options' ->
        exists t, normalizedText = JsString.trim t /\ normalizedText <> [])
  /\ (forall (s : State) (w : World),
        App.text s = text -> JsString.trim text <> [] ->
        In {| run_id := next w;
              task := makeQrDataUrl_call (JsString.trim text)
                        (value (App.options s));
              active := true |}
           (runs (encode_effect s w)))
  /\ (forall decodedText,
        Mask.classify text decodedText = success
        <-> JsString.trim text <> []
            /\ decodedText = Some (JsString.trim text)).
Proof.
  cbv zeta. intros W T.
  assert (D : Permalink.text
                (PermalinkProps.decode_encode location path
                   {| Permalink.text := text; Permalink.options := options;
                      Permalink.maskOptions := maskOptions |}) = text)
    by (apply (PermalinkRoundTrip.decoded_text location path
                 {| Permalink.text := text; Permalink.options := options;
                    Permalink.maskOptions := maskOptions |}); exact W).
  split; [exact D|]. split; [rewrite D; congruence|].
  split; [|split].
  - intros events run nt o' Hin K.
    apply (encoder_input_trimmed _ (invariant_exec events) run nt o' Hin K).
  - intros s w <- N. unfold encode_effect.
    destruct (JsString.truthy (JsString.trim (App.text s))) eqn:E.
    + cbn. apply in_or_app. right. left. reflexivity.
    + apply JsStringFacts.truthy_false in E. contradiction.
  - intros d. apply MaskFacts.classify_success_iff.
Qed.

End WithPlatform.

(** ** Instances on the stand-in libraries *)

(** C7.  A completion that should be discarded and is not.  On the page
    opened on "hello" at level M, run 5 is masking and decoding the base
    image when the level is raised to H; the flush that follows starts the
    encoding at level H, run 7, and leaves run 5 pending with its flag set:
    the third effect does not depend on the options, so it is not run
    again.  The encoding at H is rejected and its handler clears the base
    image and the masked image and sets the status to [failed] and the
    advisory.  Run 5, started before the edit, then completes, before the
    effects are flushed again: its flag is still set, so its handler puts
    its masked image and its status [success] over what the newer run
    committed.  The next flush clears the flag, too late, and the third
    effect returns at once on the empty base image without clearing
    anything: the page keeps the advisory of the failure beside the image
    and the "Readable" line of the older run. *)
Theorem late_mask_run_overwrites_failure_reset :
  let before := @exec level_platform masking in
  let edited := @exec level_platform level_raised in
  let rejected := @step level_platform edited (Settle 7) in
  let late := @step level_platform rejected (Settle 5) in
  let rest := @step level_platform late FlushEffects in
  (* run 5 is started before the edit, run 7 after it; both flags are set *)
  runs before = [mask_run]
  /\ runs edited = [mask_run; raised_run]
  /\ @Mask.makeQrDataUrl level_platform (js "hello") {| errorLevel := Level.H |}
     = None
  (* the newer run is rejected and resets the derived state *)
  /\ qrDataUrl (state rejected) = []
  /\ maskedDataUrl (state rejected) = []
  /\ decodeStatus (state rejected) = failed
  /\ errorMessage (state rejected) = PipelineProps.failed_to_generate
  /\ runs rejected = [mask_run]
  (* the older run completes and overwrites it *)
  /\ maskedDataUrl (state late) = white_export
  /\ maskedDataUrl (state late) <> maskedDataUrl (state rejected)
  /\ decodeStatus (state late) = success
  /\ decodeStatus (state late) <> decodeStatus (state rejected)
  /\ qrDataUrl (state late) = []
  /\ errorMessage (state late) = PipelineProps.failed_to_generate
  (* and the page stays so *)
  /\ state rest = state late
  /\ runs rest = []
  /\ @step level_platform rest FlushEffects = rest
  /\ shownError (state rest) = Some PipelineProps.failed_to_generate
  /\ currentPreview (state rest) = white_export
  /\ shownDecodeStatus (state rest) = Some (0x2705 :: js " Readable").
Proof.
  cbv zeta.
  repeat match goal with
         | |- _ /\ _ => split
         end;
    vm_compute; first [reflexivity | discriminate].
Qed.

Lemma encode_failure_resets_derived_state_witness :
  In long_run (runs (@exec sample_platform edit_long))
  /\ task long_run = makeQrDataUrl_call long_text {| errorLevel := Level.M |}
  /\ @Mask.makeQrDataUrl sample_platform long_text {| errorLevel := Level.M |}
     = None
  /\ active long_run = true
  /\ decodeStatus
       (state (@step sample_platform (@exec sample_platform edit_long)
                 (Settle 4)))
     = failed
  /\ qrDataUrl
       (state (@step sample_platform (@exec sample_platform edit_long)
                 (Settle 4)))
     = [].
Proof.
  assert (Hin : In long_run (runs (@exec sample_platform edit_long)))
    by (vm_compute; left; reflexivity).
  pose proof (proj1 (@encode_failure_resets_derived_state sample_platform
                       edit_long long_run long_text
                       {| errorLevel := Level.M |}
                       Hin eq_refl eq_refl) eq_refl) as R.
  split; [exact Hin|]. split; [reflexivity|]. split; [reflexivity|].
  split; [reflexivity|].
  split; [exact (proj1 (proj2 (proj2 (proj2 (proj2 (proj2 R))))))
         | exact (proj1 (proj2 (proj2 R)))].
Defined.

(** After the encoding of a live run has failed a decode status is shown,
    the "Unreable" line. *)
Lemma encode_failure_shows_decode_status :
  @Mask.makeQrDataUrl sample_platform long_text {| errorLevel := Level.M |}
  = None
  /\ shownDecodeStatus
       (state (@exec sample_platform
                 [ChangeText long_text; FlushEffects; Settle 4]))
     = Some (0x274C :: js " Unreable")
  /\ shownDecodeStatus
       (state (@exec sample_platform
                 [ChangeText long_text; FlushEffects; Settle 4]))
     <> None.
Proof.
  split; [reflexivity|]. split; [vm_compute; reflexivity|].
  vm_compute. discriminate.
Qed.

Lemma whitespace_kept_in_url_not_in_code_witness :
  Encoding.well_formed (js " hi ") = true
  /\ JsString.trim (js " hi ") <> js " hi "
  /\ Permalink.text
       (PermalinkProps.decode_encode PermalinkProps.here (js "/")
          {| Permalink.text := js " hi ";
             Permalink.options := defaultOptions;
             Permalink.maskOptions := defaultMaskOptions |})
     = js " hi ".
Proof.
  assert (T : JsString.trim (js " hi ") <> js " hi ")
    by (vm_compute; discriminate).
  split; [reflexivity|]. split; [exact T|].
  exact (proj1 (@whitespace_kept_in_url_not_in_code sample_platform
                  PermalinkProps.here (js "/") (js " hi ")
                  defaultOptions defaultMaskOptions eq_refl T)).
Defined.

(** A text with a leading space and an unpaired surrogate is not given
    back by the permalink: the space is, the surrogate is not. *)
Lemma whitespace_text_with_unpaired_surrogate :
  JsString.trim [32; 0xD800] <> [32; 0xD800]
  /\ Permalink.text
       (PermalinkProps.decode_encode PermalinkProps.here (js "/")
          {| Permalink.text := [32; 0xD800];
             Permalink.options := defaultOptions;
             Permalink.maskOptions := defaultMaskOptions |})
     = [32; 0xFFFD]
  /\ Permalink.text
       (PermalinkProps.decode_encode PermalinkProps.here (js "/")
          {| Permalink.text := [32; 0xD800];
             Permalink.options := defaultOptions;
             Permalink.maskOptions := defaultMaskOptions |})
     <> [32; 0xD800].
Proof.
  split; [vm_compute; discriminate|].
  split; [vm_compute; reflexivity|].
  vm_compute. discriminate.
Qed.

End AppFacts.

(* ===================================================================== *)
(** * More on the encodings: what the decoders give back *)
(* ===================================================================== *)

Module EncodingMore.
Import Encoding EncodingProps EncodingFacts StringProps.

Lemma scalar_values_of_string (s : jsstring) :
  is_string s -> Forall is_scalar (scalar_values s).
Proof.
  unfold is_string.
  remember (List.length s) as n eqn:Hn. revert s Hn.
  induction n as [n IH] using lt_wf_ind. intros s Hn F.
  destruct s as [|c s']; [constructor|].
  inversion F as [|? ? Hc F']; subst.
  assert (R : Forall is_scalar (scalar_values s'))
    by (apply (IH (List.length s')); [cbn; lia | reflexivity | exact F']).
  assert (U : is_scalar 0xFFFD) by (unfold is_scalar; lia).
  cbn [scalar_values].
  destruct (is_high_surrogate c) eqn:Hh.
  - destruct s' as [|d s'']; [constructor; [exact U | constructor]|].
    destruct (is_low_surrogate d) eqn:Hl; [|constructor; assumption].
    inversion F' as [|? ? Hd F'']; subst.
    unfold is_high_surrogate, is_low_surrogate in Hh, Hl.
    apply andb_true_iff in Hh as [h1 h2]. apply andb_true_iff in Hl as [l1 l2].
    apply Z.leb_le in h1, h2, l1, l2.
    constructor; [unfold is_scalar; lia|].
    apply (IH (List.length s'')); [cbn; lia | reflexivity | exact F''].
  - destruct (is_low_surrogate c) eqn:Hl; [constructor; assumption|].
    constructor; [|exact R].
    unfold is_high_surrogate, is_low_surrogate in Hh, Hl.
    apply andb_false_iff in Hh. apply andb_false_iff in Hl.
    rewrite !Z.leb_gt in Hh, Hl. unfold is_scalar. lia.
Qed.

Lemma utf16_encode_well_formed (cps : list Z) :
  Forall is_scalar cps -> well_formed (utf16_encode cps) = true.
Proof.
  induction 1 as [|cp cps [R S] _ IH]; [reflexivity|].
  cbn [utf16_encode flat_map]. fold (utf16_encode cps). unfold utf16_unit.
  destruct (cp <? 0x10000) eqn:E; [apply Z.ltb_lt in E|apply Z.ltb_ge in E];
    cbn [app well_formed]; unfold is_high_surrogate, is_low_surrogate.
  - destruct ((0xD800 <=? cp) && (cp <=? 0xDBFF)) eqn:Hh.
    + apply andb_true_iff in Hh as [h1 h2]. apply Z.leb_le in h1, h2. lia.
    + rewrite IH. rewrite !andb_true_r.
      apply andb_true_iff. split.
      * apply andb_true_iff; split; apply Z.leb_le; lia.
      * apply negb_true_iff. apply andb_false_iff.
        rewrite !Z.leb_gt. lia.
  - zcmp. cbn [andb]. exact IH.
Qed.

(** The USVString of a string is well formed. *)
Lemma to_usv_is_well_formed (s : jsstring) :
  is_string s -> well_formed (to_usv s) = true.
Proof.
  intros F. apply utf16_encode_well_formed, scalar_values_of_string, F.
Qed.

Lemma well_formed_is_string (s : jsstring) :
  well_formed s = true -> is_string s.
Proof.
  unfold is_string.
  remember (List.length s) as n eqn:Hn. revert s Hn.
  induction n as [n IH] using lt_wf_ind. intros s Hn W.
  destruct s as [|c s']; [constructor|].
  cbn [well_formed] in W.
  destruct (is_high_surrogate c) eqn:Hh.
  - destruct s' as [|d s'']; [discriminate|].
    apply andb_true_iff in W as [Hl W].
    unfold is_high_surrogate, is_low_surrogate in Hh, Hl.
    apply andb_true_iff in Hh as [h1 h2]. apply andb_true_iff in Hl as [l1 l2].
    apply Z.leb_le in h1, h2, l1, l2.
    constructor; [lia|]. constructor; [lia|].
    apply (IH (List.length s'')); [subst n; cbn; lia | reflexivity | exact W].
  - repeat (apply andb_true_iff in W as [W ?]).
    apply Z.leb_le in W.
    match goal with X : (c <=? _) = true |- _ => apply Z.leb_le in X end.
    constructor; [lia|].
    apply (IH (List.length s')); [subst n; cbn; lia | reflexivity | assumption].
Qed.

(** ** The UTF-8 decoder emits scalar values only *)

Lemma utf8_lead_ok (b : Z) :
  0 <= b ->
  Forall is_scalar (fst (utf8_lead b)) /\ state_ok (snd (utf8_lead b)).
Proof.
  intros Hb. unfold utf8_lead.
  destruct (b <=? 0x7F) eqn:E1; [apply Z.leb_le in E1|apply Z.leb_gt in E1].
  { cbn. split; [repeat constructor; unfold is_scalar; lia | exact I]. }
  destruct ((0xC2 <=? b) && (b <=? 0xDF)) eqn:E2.
  { apply andb_true_iff in E2 as [a1 a2]. apply Z.leb_le in a1, a2.
    cbn. split; [constructor|]. split; [cbn; lia|].
    cbn. intros b2 R2. unfold is_scalar. dm_lia. }
  destruct ((0xE0 <=? b) && (b <=? 0xEF)) eqn:E3.
  { apply andb_true_iff in E3 as [a1 a2]. apply Z.leb_le in a1, a2.
    cbn. split; [constructor|]. split; [cbn; lia|].
    cbn. intros b2 R2 b3 R3. unfold is_scalar.
    destruct (b =? 0xE0) eqn:A; [apply Z.eqb_eq in A|apply Z.eqb_neq in A];
    (destruct (b =? 0xED) eqn:B; [apply Z.eqb_eq in B|apply Z.eqb_neq in B]);
    dm_lia. }
  destruct ((0xF0 <=? b) && (b <=? 0xF4)) eqn:E4.
  { apply andb_true_iff in E4 as [a1 a2]. apply Z.leb_le in a1, a2.
    cbn. split; [constructor|]. split; [cbn; lia|].
    cbn. intros b2 R2 b3 R3 b4 R4. unfold is_scalar.
    destruct (b =? 0xF0) eqn:A; [apply Z.eqb_eq in A|apply Z.eqb_neq in A];
    (destruct (b =? 0xF4) eqn:B; [apply Z.eqb_eq in B|apply Z.eqb_neq in B]);
    dm_lia. }
  cbn. split; [repeat constructor; unfold is_scalar; lia | exact I].
Qed.

Lemma utf8_decode_from_scalar (bytes : list Z) :
  Forall (fun b => 0 <= b) bytes ->
  forall st, state_ok st -> Forall is_scalar (utf8_decode_from st bytes).
Proof.
  assert (U : is_scalar 0xFFFD) by (unfold is_scalar; lia).
  induction 1 as [|b rest Hb _ IH]; intros st Hst.
  - cbn. destruct st; [constructor; [exact U | constructor] | constructor].
  - destruct (utf8_lead_ok b Hb) as [Lo Ls].
    cbn [utf8_decode_from]. destruct st as [p|].
    + destruct ((lower_boundary p <=? b) && (b <=? upper_boundary p)) eqn:R.
      * apply andb_true_iff in R as [r1 r2]. apply Z.leb_le in r1, r2.
        destruct Hst as [L G].
        destruct (bytes_left p) as [|[|n]] eqn:K; [lia | |].
        -- constructor; [apply (G b); lia | apply IH; exact I].
        -- apply IH. split; [cbn; lia|]. cbn. apply (G b). lia.
      * destruct (utf8_lead b) as [out st']. cbn [fst snd] in *.
        constructor; [exact U|]. apply Forall_app. split; [exact Lo|].
        apply IH; exact Ls.
    + destruct (utf8_lead b) as [out st']. cbn [fst snd] in *.
      apply Forall_app. split; [exact Lo | apply IH; exact Ls].
Qed.

Lemma digit_of_range (c x : Z) :
  Number.digit_of c = Some x -> 0 <= x <= 15.
Proof.
  unfold Number.digit_of.
  repeat match goal with
  | |- context [if ?t then _ else _] =>
      let E := fresh in destruct t eqn:E;
      [apply andb_true_iff in E as [? ?]|]
  end; intros K; try discriminate; injection K as <-;
  repeat match goal with X : (_ <=? _) = true |- _ => apply Z.leb_le in X end;
  lia.
Qed.

Lemma percent_decode_nonneg (bytes : list Z) :
  Forall (fun b => 0 <= b) bytes ->
  Forall (fun b => 0 <= b) (percent_decode bytes).
Proof.
  remember (List.length bytes) as n eqn:Hn. revert bytes Hn.
  induction n as [n IH] using lt_wf_ind. intros bytes Hn F.
  destruct bytes as [|b rest]; [constructor|].
  inversion F as [|? ? Hb F']; subst.
  assert (R : Forall (fun b => 0 <= b) (percent_decode rest))
    by (apply (IH (List.length rest)); [cbn; lia | reflexivity | exact F']).
  cbn [percent_decode]. destruct (b =? 0x25); [|constructor; assumption].
  destruct rest as [|h [|l rest']]; try (constructor; assumption).
  destruct (Number.digit_of h) as [x|] eqn:Dx; [|constructor; assumption].
  destruct (Number.digit_of l) as [y|] eqn:Dy; [|constructor; assumption].
  apply digit_of_range in Dx, Dy.
  inversion F' as [|? ? _ F'']; subst. inversion F'' as [|? ? _ F3]; subst.
  constructor; [lia|].
  apply (IH (List.length rest')); [cbn; lia | reflexivity | exact F3].
Qed.

End EncodingMore.

Module URLSearchParamsMore.
Import Encoding EncodingProps EncodingFacts StringProps EncodingMore.
Import URLSearchParams URLSearchParamsProps URLSearchParamsFacts.
Import PermalinkMoreProps.

Lemma split_on_Forall (P : Z -> Prop) (sep : Z) (l : list Z) :
  Forall P l -> Forall (Forall P) (split_on sep l).
Proof.
  induction 1 as [|b l Hb _ IH]; cbn [split_on].
  - repeat constructor.
  - destruct (b =? sep); [constructor; [constructor | exact IH]|].
    destruct (split_on sep l) as [|h tl]; [repeat constructor; exact Hb|].
    inversion IH; subst. constructor; [constructor|]; assumption.
Qed.

Lemma name_value_Forall (P : Z -> Prop) (l : list Z) :
  Forall P l ->
  Forall P (fst (name_value l)) /\ Forall P (snd (name_value l)).
Proof.
  induction 1 as [|b l Hb F IH]; cbn [name_value]; [split; constructor|].
  destruct (b =? 0x3D); [split; [constructor | exact F]|].
  destruct (name_value l) as [n v]. cbn [fst snd] in *.
  split; [constructor; tauto | tauto].
Qed.

(** Whatever the bytes, a decoded name or value is a well-formed string. *)
Lemma decode_component_well_formed (bytes : list Z) :
  Forall (fun b => 0 <= b) bytes ->
  well_formed (decode_component bytes) = true.
Proof.
  intros F. unfold decode_component, utf8_decode.
  apply utf16_encode_well_formed, utf8_decode_from_scalar; [|exact I].
  apply percent_decode_nonneg. apply Forall_map.
  eapply Forall_impl; [|exact F].
  intros b Hb. cbn beta in *. unfold plus_to_space.
  destruct (b =? 0x2B); lia.
Qed.

Lemma parse_bytes_well_formed (input : list Z) :
  Forall (fun b => 0 <= b) input ->
  Forall well_formed_pair (parse_bytes input).
Proof.
  intros F. unfold parse_bytes.
  pose proof (split_on_Forall _ 0x26 input F) as S.
  induction S as [|bytes rest Hb _ IH]; cbn [flat_map]; [constructor|].
  apply Forall_app. split; [|exact IH].
  destruct bytes as [|b bs]; [constructor|].
  destruct (name_value_Forall _ (b :: bs) Hb) as [Fn Fv].
  destruct (name_value (b :: bs)) as [n v]. cbn [fst snd] in *.
  repeat constructor; cbn [fst snd];
    apply decode_component_well_formed; assumption.
Qed.

(** Every name and value read from a string is well formed. *)
Lemma of_string_well_formed (init : jsstring) :
  is_string init -> Forall well_formed_pair (of_string init).
Proof.
  intros F. unfold of_string. apply parse_bytes_well_formed.
  assert (T : is_string
                match init with
                | 63 :: r => r
                | _ => init
                end).
  { destruct init as [|c r]; [exact F|].
    assert (R : is_string r) by (inversion F; assumption).
    destruct c as [|p|p]; try exact F.
    do 7 (try destruct p as [p|p|]); first [exact F | exact R]. }
  eapply Forall_impl;
    [|apply utf8_encode_range, scalar_values_of_string, T].
  unfold is_byte. intros b Hb. cbn beta in *. lia.
Qed.

Lemma get_well_formed (name value : jsstring) (params : t) :
  Forall well_formed_pair params ->
  get name params = Some value -> well_formed value = true.
Proof.
  induction 1 as [|[n v] rest [_ Hv] _ IH]; cbn [get]; [discriminate|].
  destruct (JsString.eqb n name); [|exact IH].
  intros E. injection E as <-. exact Hv.
Qed.

(** ** What the serializer writes *)

Lemma serialize_byte_query (b : Z) :
  is_byte b -> Forall is_query_char (serialize_byte b).
Proof.
  intros R. unfold is_byte in R. unfold serialize_byte.
  destruct (b =? 0x20).
  { constructor; [right; left; reflexivity | constructor]. }
  destruct (is_unreserved b) eqn:U.
  { constructor; [left; exact U | constructor]. }
  assert (Hx : forall d, 0 <= d < 16 -> is_query_char (hex_digit d)).
  { intros d Hd. left. destruct (hex_digit_spec d Hd) as [[A|A] _];
      unfold is_unreserved; btrue; lia. }
  constructor; [right; right; left; reflexivity|].
  constructor; [apply Hx; dm_lia|].
  constructor; [apply Hx; dm_lia | constructor].
Qed.

Lemma serialize_component_query (s : jsstring) :
  well_formed s = true -> Forall is_query_char (serialize_component s).
Proof.
  intros W. unfold serialize_component, serialize_bytes.
  assert (B : Forall is_byte (utf8_encode (scalar_values s)))
    by (apply utf8_encode_range, well_formed_scalar_values, W).
  induction B as [|b bs Hb _ IH]; cbn [flat_map]; [constructor|].
  apply Forall_app. split; [apply serialize_byte_query, Hb | exact IH].
Qed.

Lemma toString_query (params : t) :
  Forall well_formed_pair params -> Forall is_query_char (toString params).
Proof.
  induction 1 as [|[n v] rest [Hn Hv] _ IH]; [constructor|].
  cbn [toString fst snd] in *.
  apply Forall_app. split; [apply serialize_component_query, Hn|].
  constructor; [right; right; right; right; reflexivity|].
  apply Forall_app. split; [apply serialize_component_query, Hv|].
  destruct rest; [constructor|].
  constructor; [right; right; right; left; reflexivity | exact IH].
Qed.

End URLSearchParamsMore.

(* ===================================================================== *)
(** * More on the permalink codec *)
(* ===================================================================== *)

(** A literal is a string. *)
Ltac string_ok :=
  unfold StringProps.is_string; cbn;
  repeat (apply Forall_cons; [lia|]); apply Forall_nil.

Module PermalinkMore.
Import Encoding EncodingProps EncodingFacts StringProps EncodingMore.
Import URLSearchParams URLSearchParamsProps URLSearchParamsFacts.
Import URLSearchParamsMore.
Import Permalink PermalinkProps PermalinkMoreProps PermalinkFacts.
Import PermalinkRoundTrip.

(** X1.  [parseErrorLevel] accepts the four codes exactly as written, and
    nothing else: a value that is one of "L", "M", "Q", "H" gives that
    level; any other value, and an absent one, gives the fallback. *)
Theorem parseErrorLevel_accepts_exact_codes
    (value : option jsstring) (fallback : ErrorLevel) :
  (forall l, value = Some (ErrorLevel_string l) ->
             parseErrorLevel value fallback = l)
  /\ ((forall l, value <> Some (ErrorLevel_string l)) ->
      parseErrorLevel value fallback = fallback).
Proof.
  split.
  - intros l ->. apply parseErrorLevel_string_level.
  - intros N. destruct value as [v|]; [|reflexivity].
    apply parseErrorLevel_other. intros l E. apply (N l). congruence.
Qed.

(** A value whose first character after the white space cannot start a
    numeric literal is not a number. *)
Lemma not_a_numeric_literal (v r : jsstring) (c : Z) :
  JsString.trim v = c :: r ->
  Number.is_digit c = false ->
  c <> 43 -> c <> 45 -> c <> 46 -> c <> 73 ->
  Number.Number (Some v) = Number.NaN.
Proof.
  intros T D P1 P2 P3 P4.
  unfold Number.Number, Number.StringToNumber. rewrite T.
  unfold Number.StrNumericLiteral, Number.unsigned_decimal.
  destruct c as [|p|p]; [reflexivity | | reflexivity].
  do 7 (try destruct p as [p|p|]);
    first [ reflexivity | discriminate D | congruence ].
Qed.

(** X2.  A numeric parameter whose value starts, after white space, with
    a character that is no digit, sign, dot or "I" decodes to the fallback
    of its field. *)
Theorem garbage_number_gives_fallback
    (v r : jsstring) (c fallback lo hi : Z) :
  JsString.trim v = c :: r ->
  Number.is_digit c = false ->
  c <> 43 -> c <> 45 -> c <> 46 -> c <> 73 ->
  parseNumber (Some v) fallback lo hi = fallback.
Proof.
  intros T D P1 P2 P3 P4. apply parseNumber_NaN.
  apply (not_a_numeric_literal v r c); assumption.
Qed.

Lemma garbage_number_gives_fallback_witness :
  JsString.trim (js " abc") = 97 :: js "bc"
  /\ Number.is_digit 97 = false
  /\ parseNumber (Some (js " abc")) 18 0 45 = 18.
Proof.
  split; [reflexivity|]. split; [reflexivity|].
  apply (garbage_number_gives_fallback (js " abc") (js "bc") 97 18 0 45);
    [reflexivity | reflexivity | lia | lia | lia | lia].
Defined.

(** [createPermalink] sees its text as a USVString. *)
Lemma createPermalink_usv (location : Location) (text : jsstring)
    (options : QrOptions) (maskOptions : MaskOptions) :
  is_string text ->
  createPermalink (Some location) text options maskOptions
  = createPermalink (Some location) (to_usv text) options maskOptions.
Proof.
  intros F. rewrite !createPermalink_query. unfold permalink_pairs.
  rewrite (to_usv_well_formed (to_usv text))
    by (apply to_usv_is_well_formed, F).
  reflexivity.
Qed.

(** Decoding a permalink: the text as a USVString, the rest as it was. *)
Lemma decode_encode_usv (location : Location) (path t : jsstring)
    (o : QrOptions) (m : MaskOptions) :
  is_string t -> MaskOptions_in_range m ->
  decode_encode location path
    {| text := t; options := o; maskOptions := m |}
  = {| text := to_usv t; options := o; maskOptions := m |}.
Proof.
  intros F (Rs & Rx & Ry & Ro).
  unfold decode_encode. cbn [text options maskOptions].
  rewrite createPermalink_usv by exact F.
  unfold parsePermalinkState. cbn [search].
  rewrite permalink_params by (apply to_usv_is_well_formed, F).
  destruct (get_six (to_usv t) (ErrorLevel_string (errorLevel o))
              (Number.toString (sizePercent m))
              (Number.toString (centerXPercent m))
              (Number.toString (centerYPercent m))
              (Number.toString (opacityPercent m)))
    as (G1 & G2 & G3 & G4 & G5 & G6).
  unfold six_pairs in *.
  rewrite G1, G2, G3, G4, G5, G6.
  rewrite parseErrorLevel_string_level.
  rewrite !parseNumber_toString by lia.
  destruct o, m; reflexivity.
Qed.

(** X3.  For every text and every in-range state, decoding the permalink
    gives back the level and the four percentages, and the text as a
    USVString (each unpaired surrogate replaced by U+FFFD); the text itself
    comes back exactly when it is well formed. *)
Theorem decode_encode_gives_usv_text
    (location : Location) (path : jsstring) (s : PermalinkState) :
  is_string (text s) -> MaskOptions_in_range (maskOptions s) ->
  let decoded := decode_encode location path s in
  decoded
  = {| text := to_usv (text s); options := options s;
       maskOptions := maskOptions s |}
  /\ well_formed (text decoded) = true
  /\ (decoded = s <-> well_formed (text s) = true).
Proof.
  intros F R. cbv zeta.
  destruct s as [t o m]. cbn [text options maskOptions] in *.
  rewrite (decode_encode_usv location path t o m F R).
  cbn [text]. split; [reflexivity|].
  pose proof (to_usv_is_well_formed t F) as W.
  split; [exact W|]. split.
  - intros E. injection E as E. rewrite <- E. exact W.
  - intros Wt. rewrite (to_usv_well_formed t Wt). reflexivity.
Qed.

Lemma decode_encode_gives_usv_text_witness :
  is_string [0xD83D; 0x20]
  /\ MaskOptions_in_range defaultMaskOptions
  /\ decode_encode here (js "/")
       {| text := [0xD83D; 0x20]; options := defaultOptions;
          maskOptions := defaultMaskOptions |}
     = {| text := to_usv [0xD83D; 0x20]; options := defaultOptions;
          maskOptions := defaultMaskOptions |}.
Proof.
  assert (F : is_string [0xD83D; 0x20])
    by string_ok.
  assert (R : MaskOptions_in_range defaultMaskOptions)
    by (unfold MaskOptions_in_range; cbn; lia).
  split; [exact F|]. split; [exact R|].
  exact (proj1 (decode_encode_gives_usv_text here (js "/")
                  {| text := [0xD83D; 0x20]; options := defaultOptions;
                     maskOptions := defaultMaskOptions |} F R)).
Defined.

(** X4.  In a browser [createPermalink] never falls back to the path: the
    result is "?t=" followed by characters a query string holds as they
    are (letters, digits, [*-._], [+], [%], [&], [=]). *)
Theorem permalink_is_a_query_string (location : Location) (text : jsstring)
    (options : QrOptions) (maskOptions : MaskOptions) :
  is_string text ->
  exists rest,
    createPermalink (Some location) text options maskOptions
    = js "?t=" ++ rest
    /\ Forall is_query_char rest.
Proof.
  intros F. rewrite createPermalink_query.
  assert (W : Forall well_formed_pair
                (permalink_pairs text options maskOptions)).
  { unfold permalink_pairs. repeat constructor; cbn [fst snd];
      first [ reflexivity
            | apply to_usv_is_well_formed, F
            | apply to_usv_idempotent_well_formed,
                ErrorLevel_string_well_formed
            | apply to_usv_idempotent_well_formed, toString_well_formed ]. }
  pose proof (toString_query _ W) as Q.
  unfold permalink_pairs in Q |- *.
  cbn [toString] in Q |- *.
  change (serialize_component (js "t")) with [116] in Q |- *.
  cbn [app] in Q |- *.
  inversion Q as [|? ? _ Q1]; subst. inversion Q1 as [|? ? _ Q2]; subst.
  eexists. split; [reflexivity | exact Q2].
Qed.

Lemma permalink_is_a_query_string_witness :
  is_string (js "a b&c")
  /\ exists rest,
       createPermalink (Some here) (js "a b&c") defaultOptions
         defaultMaskOptions
       = js "?t=" ++ rest
       /\ Forall is_query_char rest.
Proof.
  assert (F : is_string (js "a b&c")) by string_ok.
  split; [exact F|].
  exact (permalink_is_a_query_string here (js "a b&c") defaultOptions
           defaultMaskOptions F).
Defined.

(** The text read from an address is well formed. *)
Lemma decoded_text_well_formed (location : Location) :
  is_string (search location) ->
  well_formed (text (parsePermalinkState (Some location))) = true.
Proof.
  intros F. cbn [parsePermalinkState text].
  destruct (URLSearchParams.get (js "t")
              (URLSearchParams.of_string (search location))) as [t|] eqn:G;
    [|reflexivity].
  apply (get_well_formed (js "t") t _ (of_string_well_formed _ F) G).
Qed.

Lemma decoded_mask_in_range (location : Location) :
  MaskOptions_in_range (maskOptions (parsePermalinkState (Some location))).
Proof.
  unfold MaskOptions_in_range.
  cbn [parsePermalinkState maskOptions sizePercent centerXPercent
       centerYPercent opacityPercent defaultMaskOptions].
  repeat split; apply parseNumber_range; lia.
Qed.

(** X5.  Decoding is stable: for every query string, the state read from
    it is given back by decoding its own permalink. *)
Theorem decoded_state_round_trips
    (location location' : Location) (path : jsstring) :
  is_string (search location) ->
  decode_encode location' path (parsePermalinkState (Some location))
  = parsePermalinkState (Some location).
Proof.
  intros F.
  pose proof (decoded_text_well_formed location F) as W.
  pose proof (decoded_mask_in_range location) as R.
  destruct (parsePermalinkState (Some location)) as [t o m].
  cbn [text maskOptions] in *.
  rewrite (decode_encode_usv location' path t o m
             (well_formed_is_string t W) R).
  rewrite (to_usv_well_formed t W). reflexivity.
Qed.

Lemma decoded_state_round_trips_witness :
  is_string (js "?ms=99&t=%ED%A0%80+x&e=z&mo=")
  /\ decode_encode here (js "/")
       (parsePermalinkState
          (Some {| search := js "?ms=99&t=%ED%A0%80+x&e=z&mo=";
                   pathname := js "/" |}))
     = parsePermalinkState
         (Some {| search := js "?ms=99&t=%ED%A0%80+x&e=z&mo=";
                  pathname := js "/" |}).
Proof.
  assert (F : is_string (js "?ms=99&t=%ED%A0%80+x&e=z&mo="))
    by string_ok.
  split; [exact F|].
  exact (decoded_state_round_trips
           {| search := js "?ms=99&t=%ED%A0%80+x&e=z&mo=";
              pathname := js "/" |} here (js "/") F).
Defined.

End PermalinkMore.

(* ===================================================================== *)
(** * More on trimming, the mask and the classifier *)
(* ===================================================================== *)

Module JsStringMore.
Import JsString.

Lemma trimStart_fixed (c : Z) (s : jsstring) :
  is_white_space c = false -> trimStart (c :: s) = c :: s.
Proof. intros E. cbn [trimStart]. rewrite E. reflexivity. Qed.

Lemma trimStart_head (s : jsstring) :
  trimStart s = []
  \/ exists c r, trimStart s = c :: r /\ is_white_space c = false.
Proof.
  induction s as [|c s IH]; [left; reflexivity|].
  cbn [trimStart]. destruct (is_white_space c) eqn:E; [exact IH|].
  right. exists c, s. split; [reflexivity | exact E].
Qed.

(** What [trimStart] drops is a prefix. *)
Lemma trimStart_suffix (s : jsstring) :
  exists p, s = p ++ trimStart s.
Proof.
  induction s as [|c s [p E]]; [exists []; reflexivity|].
  cbn [trimStart]. destruct (is_white_space c).
  - exists (c :: p). cbn. f_equal. exact E.
  - exists []. reflexivity.
Qed.

(** Trimming twice is trimming once. *)
Lemma trim_idempotent (s : jsstring) : trim (trim s) = trim s.
Proof.
  unfold trim, trimEnd.
  set (a := trimStart s).
  destruct (trimStart_head (rev a)) as [E|(c & r & E & W)].
  - rewrite E. reflexivity.
  - rewrite E.
    (* the result, [rev (c :: r)], starts as [a] does and ends with [c] *)
    destruct (trimStart_suffix (rev a)) as [p Ep]. rewrite E in Ep.
    assert (Ea : a = rev (c :: r) ++ rev p).
    { rewrite <- rev_app_distr, <- Ep, rev_involutive. reflexivity. }
    assert (S : trimStart (rev (c :: r)) = rev (c :: r)).
    { destruct (rev (c :: r)) as [|h tl] eqn:R.
      - reflexivity.
      - destruct (trimStart_head s) as [Z0|(h' & tl' & Eh & Wh)];
          fold a in Z0 || fold a in Eh.
        + rewrite Z0 in Ea. discriminate.
        + rewrite Eh in Ea. cbn in Ea. injection Ea as -> _.
          apply trimStart_fixed, Wh. }
    rewrite S, rev_involutive, (trimStart_fixed c r W). reflexivity.
Qed.

End JsStringMore.

Module MaskMore.
Import Mask MaskProps MaskFacts.

Section WithPlatform.
Context `{Platform}.

(** X6.  Painting the mask keeps the size of the canvas and the number of
    its pixels; a pixel inside the square is composited with the fill
    colour at the mask's opacity, and every pixel outside the square is
    the pixel of the base image. *)
Theorem mask_changes_only_the_square
    (image : ImageData) (m : MaskOptions) :
  width (maskedCanvas image m) = width image
  /\ height (maskedCanvas image m) = height image
  /\ List.length (data (maskedCanvas image m)) = List.length (data image)
  /\ forall index pixel,
       nth_error (data image) index = Some pixel ->
       nth_error (data (maskedCanvas image m)) index
       = Some (if in_mask_square (width image) (height image) m index
               then composite
                      (fixedMaskRgba (inject_Z (opacityPercent m) / 100))
                      pixel
               else pixel).
Proof.
  unfold maskedCanvas, in_mask_square, drawImage. cbn [width height data].
  destruct (maskSquare (width image) (height image) m) as [[[x y] side]|].
  - unfold fillRect. cbn [width height data].
    repeat split; [apply map_indexed_length|].
    intros index pixel E. rewrite map_indexed_nth_error, E.
    cbn [option_map]. rewrite Z.add_0_l. reflexivity.
  - cbn [width height data]. repeat split. intros index pixel E. exact E.
Qed.

End WithPlatform.

(** X7.  The fill is always the colour (113, 75, 75) with an alpha within
    [0,1]; for an opacity of the data model the alpha is the opacity
    divided by 100, one tenth at least. *)
Theorem mask_fill_colour (m : MaskOptions) :
  MaskOptions_in_range m ->
  let fill := fixedMaskRgba (inject_Z (opacityPercent m) / 100) in
  r fill = 113 /\ g fill = 75 /\ b fill = 75
  /\ (a fill == inject_Z (opacityPercent m) / 100)%Q
  /\ (1 # 10 <= a fill)%Q /\ (a fill <= 1)%Q
  /\ forall alpha, (0 <= a (fixedMaskRgba alpha))%Q
                   /\ (a (fixedMaskRgba alpha) <= 1)%Q.
Proof.
  intros (_ & _ & _ & Ro). cbv zeta. unfold fixedMaskRgba, clamp_Q.
  cbn [r g b a].
  assert (Lo : (1 # 10 <= inject_Z (opacityPercent m) / 100)%Q).
  { unfold Qle, Qdiv, Qmult, Qinv, inject_Z; cbn [Qnum Qden]. lia. }
  assert (Hi : (inject_Z (opacityPercent m) / 100 <= 1)%Q).
  { unfold Qle, Qdiv, Qmult, Qinv, inject_Z; cbn [Qnum Qden]. lia. }
  assert (E : (Qmin 1 (Qmax 0 (inject_Z (opacityPercent m) / 100))
               == inject_Z (opacityPercent m) / 100)%Q).
  { rewrite Q.max_r by (eapply Qle_trans; [|exact Lo]; discriminate).
    apply Q.min_r. exact Hi. }
  repeat split; try reflexivity.
  - exact E.
  - rewrite E. exact Lo.
  - rewrite E. exact Hi.
  - apply Q.min_glb; [discriminate | apply Q.le_max_l].
  - apply Q.le_min_l.
Qed.

Lemma mask_fill_colour_witness :
  MaskOptions_in_range defaultMaskOptions
  /\ (a (fixedMaskRgba (inject_Z (opacityPercent defaultMaskOptions) / 100))
      == inject_Z (opacityPercent defaultMaskOptions) / 100)%Q.
Proof.
  assert (R : MaskOptions_in_range defaultMaskOptions)
    by (unfold MaskOptions_in_range; cbn; lia).
  split; [exact R|].
  exact (proj1 (proj2 (proj2 (proj2 (mask_fill_colour defaultMaskOptions R))))).
Defined.

(** The square, in integers. *)
Lemma maskSquare_integers (width height : Z) (m : MaskOptions)
    (x y side : Z) :
  0 < sizePercent m ->
  maskSquare width height m = Some (x, y, side) ->
  side = Z.max 1 ((Z.min width height * sizePercent m + 50) / 100)
  /\ x = clamp ((width * centerXPercent m - 50 * side + 50) / 100)
           0 (width - side)
  /\ y = clamp ((height * centerYPercent m - 50 * side + 50) / 100)
           0 (height - side).
Proof.
  intros Hs. unfold maskSquare. rewrite ltb_true by exact Hs.
  rewrite !Math_round_corner.
  rewrite (Math_round_hundredths (Z.min width height * sizePercent m)).
  intros E.
  assert (Es : side
               = Z.max 1 ((Z.min width height * sizePercent m + 50) / 100))
    by congruence.
  rewrite <- Es in E. split; [exact Es|]. split; congruence.
Qed.

(** X8.  For mask options of the data model: a centre at 0 percent puts
    the square against the left (top) edge, a centre at 100 percent against
    the right (bottom) edge, and a centre at 50 percent leaves margins that
    differ by one pixel at most. *)
Theorem mask_square_positions (width height : Z) (m : MaskOptions)
    (x y side : Z) :
  MaskOptions_in_range m -> 0 < sizePercent m ->
  0 < width -> 0 < height ->
  maskSquare width height m = Some (x, y, side) ->
  (centerXPercent m = 0 -> x = 0)
  /\ (centerXPercent m = 100 -> x = width - side)
  /\ (centerXPercent m = 50 -> 0 <= x - (width - side - x) <= 1)
  /\ (centerYPercent m = 0 -> y = 0)
  /\ (centerYPercent m = 100 -> y = height - side)
  /\ (centerYPercent m = 50 -> 0 <= y - (height - side - y) <= 1).
Proof.
  intros (Rs & _) Hs Hw Hh E.
  destruct (maskSquare_integers width height m x y side Hs E)
    as (Es & Ex & Ey).
  assert (S : 1 <= side <= Z.min width height)
    by (rewrite Es; apply side_fits; lia).
  clear Es E. unfold clamp in Ex, Ey.
  split; [|split; [|split; [|split; [|split]]]];
    intros C; rewrite C in *; dm_lia.
Qed.

Lemma mask_square_positions_witness :
  MaskOptions_in_range defaultMaskOptions
  /\ maskSquare 320 320 defaultMaskOptions = Some (131, 131, 58)
  /\ 0 <= 131 - (320 - 58 - 131) <= 1.
Proof.
  assert (R : MaskOptions_in_range defaultMaskOptions)
    by (unfold MaskOptions_in_range; cbn; lia).
  assert (E : maskSquare 320 320 defaultMaskOptions = Some (131, 131, 58))
    by reflexivity.
  split; [exact R|]. split; [exact E|].
  apply (proj1 (proj2 (proj2
           (mask_square_positions 320 320 defaultMaskOptions 131 131 58
              R ltac:(cbn; lia) ltac:(lia) ltac:(lia) E)))).
  reflexivity.
Defined.

(** X9.  The clamp keeps the square inside only while the side fits: for
    a size so far above 100 percent that the side exceeds the shorter
    dimension, the corner is negative along that dimension and the square
    ends at the far edge. *)
Theorem oversized_mask_leaves_canvas (width height : Z) (m : MaskOptions)
    (x y side : Z) :
  0 < width -> 0 < height ->
  50 <= Z.min width height * (sizePercent m - 100) ->
  maskSquare width height m = Some (x, y, side) ->
  Z.min width height < side
  /\ (width <= height -> x = width - side /\ x < 0)
  /\ (height <= width -> y = height - side /\ y < 0).
Proof.
  intros Hw Hh Hbig E.
  assert (Hs : 0 < sizePercent m) by nia.
  destruct (maskSquare_integers width height m x y side Hs E)
    as (Es & Ex & Ey).
  assert (S : Z.min width height < side).
  { rewrite Es.
    assert (100 * (Z.min width height + 1)
            <= Z.min width height * sizePercent m + 50) by nia.
    dm_lia. }
  clear Es E. unfold clamp in Ex, Ey.
  split; [exact S|]. split; intros C; lia.
Qed.

Lemma oversized_mask_leaves_canvas_witness :
  50 <= Z.min 10 10 * (200 - 100)
  /\ maskSquare 10 10
       {| sizePercent := 200; centerXPercent := 50;
          centerYPercent := 50; opacityPercent := 100 |}
     = Some (-10, -10, 20)
  /\ Z.min 10 10 < 20.
Proof.
  assert (E : maskSquare 10 10
                {| sizePercent := 200; centerXPercent := 50;
                   centerYPercent := 50; opacityPercent := 100 |}
              = Some (-10, -10, 20)) by reflexivity.
  split; [cbn; lia|]. split; [exact E|].
  exact (proj1 (oversized_mask_leaves_canvas 10 10
                  {| sizePercent := 200; centerXPercent := 50;
                     centerYPercent := 50; opacityPercent := 100 |}
                  (-10) (-10) 20 ltac:(lia) ltac:(lia) ltac:(cbn; lia) E)).
Defined.

(** X11.  The classifier reads the text through its trimmed form only:
    white space at the ends of the text never changes the status. *)
Theorem classify_ignores_outer_white_space
    (text : jsstring) (decoded : option jsstring) :
  classify (JsString.trim text) decoded = classify text decoded.
Proof.
  unfold classify. rewrite JsStringMore.trim_idempotent. reflexivity.
Qed.

End MaskMore.

(* ===================================================================== *)
(** * More on the effect pipeline *)
(* ===================================================================== *)

Module AppMore.
Import App AppProps AppFacts PipelineProps.

Lemma same_id_same_run (rs : list Run) (r1 r2 : Run) :
  NoDup (map run_id rs) -> In r1 rs -> In r2 rs ->
  run_id r1 = run_id r2 -> r1 = r2.
Proof.
  induction rs as [|x rs IH]; cbn; [intros _ []|].
  intros N H1 H2 E. inversion N as [|? ? Hx Hl]; subst.
  destruct H1 as [->|H1], H2 as [->|H2]; auto.
  - exfalso. apply Hx. rewrite E. apply in_map, H2.
  - exfalso. apply Hx. rewrite <- E. apply in_map, H1.
Qed.

Section WithPlatform.
Context `{Platform}.

(** X12.  At any moment each of the two asynchronous effects has at most
    one run whose [active] flag is still set. *)
Theorem at_most_one_live_run_per_effect
    (events : list Event) (r1 r2 : Run) :
  In r1 (runs (exec events)) -> In r2 (runs (exec events)) ->
  active r1 = true -> active r2 = true ->
  is_encode r1 = is_encode r2 ->
  r1 = r2.
Proof.
  intros H1 H2 A1 A2 K.
  pose proof (invariant_exec events) as I.
  pose proof (active_is_current _ I r1 H1 A1) as C1.
  pose proof (active_is_current _ I r2 H2 A2) as C2.
  apply (same_id_same_run (runs (exec events)));
    [exact (ids_distinct _ I) | exact H1 | exact H2 |].
  unfold current, is_encode in *.
  destruct (task r1), (task r2); try discriminate; congruence.
Qed.

Lemma runEffects_inputs (p e m : bool) (w : World) :
  inputs (state (runEffects p e m w)) = inputs (state w).
Proof.
  unfold runEffects, permalink_effect, encode_effect, mask_effect,
    run_cleanup, inputs.
  repeat (cbn;
          match goal with
          | |- context [if ?b then _ else _] => destruct b
          | |- context [match ?x with Some _ => _ | None => _ end] =>
              destruct x
          end);
    reflexivity.
Qed.

Lemma settle_inputs (id : nat) (w : World) :
  inputs (state (settle id w)) = inputs (state w).
Proof.
  unfold settle, inputs.
  destruct (find (fun r => Nat.eqb (run_id r) id) (runs w)) as [run|];
    [|reflexivity].
  destruct (task run); cbn; unfold encode_settled, mask_settled;
    repeat match goal with
           | |- context [match ?x with Some _ => _ | None => _ end] =>
               destruct x
           | |- context [if ?b then _ else _] => destruct b
           end; reflexivity.
Qed.

(** X13.  The effects and the promise handlers never touch the text, the
    options or the mask options: only the user's events set them. *)
Theorem effects_and_handlers_keep_inputs (w : World) (id : nat) :
  inputs (state (step w FlushEffects)) = inputs (state w)
  /\ inputs (state (step w StrictModeRemount)) = inputs (state w)
  /\ inputs (state (step w (Settle id))) = inputs (state w).
Proof.
  cbn [step]. unfold flushEffects, strictModeRemount.
  split; [apply runEffects_inputs|].
  split; [apply runEffects_inputs | apply settle_inputs].
Qed.

(** What running the effects does to the state: nothing, unless the second
    effect runs. *)
Lemma runEffects_state (p e m : bool) (w : World) :
  state (runEffects p e m w)
  = if e then
      if negb (JsString.truthy (JsString.trim (text (state w)))) then
        setDecodeStatus untested
          (setMaskedDataUrl []
             (setQrDataUrl [] (setErrorMessage please_enter (state w))))
      else setErrorMessage [] (state w)
    else state w.
Proof.
  unfold runEffects, permalink_effect, encode_effect, mask_effect,
    run_cleanup.
  repeat (cbn;
          match goal with
          | |- context [if ?b then _ else _] => destruct b
          | |- context [match ?x with Some _ => _ | None => _ end] =>
              destruct x
          end);
    reflexivity.
Qed.

Lemma runEffects_deps (p e m : bool) (w : World) :
  permalink_deps (runEffects p e m w)
  = Some (addr (maskOptions (state w)), addr (options (state w)),
          text (state w))
  /\ encode_deps (runEffects p e m w)
     = Some (addr (options (state w)), text (state w))
  /\ mask_deps (runEffects p e m w)
     = Some (addr (maskOptions (state w)), qrDataUrl (state w),
             text (state w)).
Proof. repeat split. Qed.

Lemma exec_snoc (events : list Event) (e : Event) :
  exec (events ++ [e]) = step (exec events) e.
Proof. unfold exec. rewrite fold_left_app. reflexivity. Qed.

(** X14.  When the text is blank (empty once trimmed) and the second
    effect runs, the flush clears the base image and the masked image,
    sets the status to [untested] and the advisory to "Please enter text to
    generate a QR code."; the page then shows the advisory, no image and no
    status line, and no encoding run is live any more. *)
Theorem blank_text_clears_the_pipeline (events : list Event) :
  let w := exec events in
  let w' := step w FlushEffects in
  JsString.trim (text (state w)) = [] ->
  encode_changed (state w) w = true ->
  qrDataUrl (state w') = []
  /\ maskedDataUrl (state w') = []
  /\ decodeStatus (state w') = untested
  /\ errorMessage (state w') = please_enter
  /\ currentPreview (state w') = []
  /\ shownDecodeStatus (state w') = None
  /\ shownError (state w') = Some please_enter
  /\ forall run, In run (runs w') -> is_encode run = true ->
                 active run = false.
Proof.
  cbv zeta. intros T C.
  assert (S : state (step (exec events) FlushEffects)
              = setDecodeStatus untested
                  (setMaskedDataUrl []
                     (setQrDataUrl []
                        (setErrorMessage please_enter
                           (state (exec events)))))).
  { cbn [step]. unfold flushEffects. rewrite runEffects_state, C, T.
    reflexivity. }
  rewrite S. repeat split.
  intros run Hin K.
  destruct (active run) eqn:A; [exfalso|reflexivity].
  pose proof (invariant_exec (events ++ [FlushEffects])) as I.
  rewrite exec_snoc in I.
  pose proof (active_is_current _ I run Hin A) as Cur.
  unfold current, is_encode in *.
  destruct (task run); [|discriminate].
  revert Cur. cbn [step].
  unfold flushEffects, runEffects, permalink_effect, encode_effect,
    mask_effect, run_cleanup.
  rewrite C, T.
  repeat (cbn;
          match goal with
          | |- context [if ?b then _ else _] => destruct b
          | |- context [match ?x with Some _ => _ | None => _ end] =>
              destruct x
          end);
    cbn; discriminate.
Qed.

(** X15.  When the promise of the live mask run settles: fulfilled, it
    sets the masked image and the status it computed; rejected, it sets the
    status to [failed] and keeps the masked image that was there.  Either
    way the text, the options, the base image and the advisory stay. *)
Theorem live_mask_run_sets_image_and_status
    (events : list Event) (run : Run)
    (q t : jsstring) (m : MaskOptions) :
  let w := exec events in
  let w' := step w (Settle (run_id run)) in
  In run (runs w) ->
  task run = applyMaskAndTest_call q t m ->
  active run = true ->
  match Mask.applyMaskAndTest q t m with
  | Some result =>
      maskedDataUrl (state w') = Mask.maskedDataUrl result
      /\ decodeStatus (state w') = Mask.decodeStatus result
  | None =>
      maskedDataUrl (state w') = maskedDataUrl (state w)
      /\ decodeStatus (state w') = failed
  end
  /\ inputs (state w') = inputs (state w)
  /\ qrDataUrl (state w') = qrDataUrl (state w)
  /\ errorMessage (state w') = errorMessage (state w).
Proof.
  cbv zeta. intros Hin T A.
  pose proof (invariant_exec events) as I.
  cbn [step]. unfold settle.
  rewrite (find_by_id _ run (ids_distinct _ I) Hin). rewrite T.
  cbn. unfold mask_settled. rewrite A.
  destruct (Mask.applyMaskAndTest q t m); cbn; repeat split.
Qed.

Lemma with_deps_twice (s : State) (w : World) :
  with_deps s (with_deps s w) = with_deps s w.
Proof. reflexivity. Qed.

Lemma unchanged_after_flush (p e m : bool) (w : World) :
  permalink_changed (state (runEffects p e m w)) (runEffects p e m w)
  = false
  /\ encode_changed (state (runEffects p e m w)) (runEffects p e m w)
     = false
  /\ (qrDataUrl (state (runEffects p e m w)) = qrDataUrl (state w) ->
      mask_changed (state (runEffects p e m w)) (runEffects p e m w)
      = false).
Proof.
  destruct (runEffects_deps p e m w) as (Dp & De & Dm).
  pose proof (runEffects_inputs p e m w) as E.
  set (w' := runEffects p e m w) in *. clearbody w'.
  unfold inputs in E.
  assert (Et : text (state w') = text (state w)) by congruence.
  assert (Eo : options (state w') = options (state w)) by congruence.
  assert (Em : maskOptions (state w') = maskOptions (state w))
    by congruence.
  unfold permalink_changed, encode_changed, mask_changed.
  rewrite Dp, De, Dm, Et, Eo, Em.
  rewrite !Nat.eqb_refl, !JsStringFacts.eqb_refl. cbn [andb negb].
  repeat split. intros ->. rewrite JsStringFacts.eqb_refl. reflexivity.
Qed.

(** X16.  The effects come to rest: after two flushes in a row a third
    changes nothing, so what the effects set never keeps them running. *)
Theorem effects_settle_after_two_flushes (w : World) :
  flushEffects (flushEffects (flushEffects w))
  = flushEffects (flushEffects w).
Proof.
  set (w1 := flushEffects w).
  assert (F1 : permalink_changed (state w1) w1 = false
               /\ encode_changed (state w1) w1 = false).
  { destruct (unchanged_after_flush
                (permalink_changed (state w) w) (encode_changed (state w) w)
                (mask_changed (state w) w) w)
      as (A & B & _).
    split; assumption. }
  destruct F1 as [P1 E1].
  set (w2 := flushEffects w1).
  assert (S2 : state w2 = state w1).
  { unfold w2, flushEffects. rewrite runEffects_state, E1. reflexivity. }
  assert (F2 : permalink_changed (state w2) w2 = false
               /\ encode_changed (state w2) w2 = false
               /\ mask_changed (state w2) w2 = false).
  { destruct (unchanged_after_flush
                (permalink_changed (state w1) w1)
                (encode_changed (state w1) w1)
                (mask_changed (state w1) w1) w1)
      as (A & B & C).
    fold (flushEffects w1) in A, B, C. fold w2 in A, B, C.
    repeat split; [exact A | exact B | apply C; rewrite S2; reflexivity]. }
  destruct F2 as (P2 & E2 & M2).
  unfold flushEffects at 1. rewrite P2, E2, M2.
  unfold runEffects. rewrite S2.
  unfold w2, flushEffects at 1, runEffects at 1.
  apply with_deps_twice.
Qed.

(** Clearing a flag changes no id and no call. *)
Lemma mask_calls_deactivate (id : nat) (rs : list Run) :
  map (fun run => (run_id run, task run))
    (filter (fun run => negb (is_encode run)) (deactivate id rs))
  = map (fun run => (run_id run, task run))
      (filter (fun run => negb (is_encode run)) rs).
Proof.
  induction rs as [|r rs IH]; [reflexivity|].
  unfold deactivate in *. cbn [map filter].
  destruct (Nat.eqb (run_id r) id); unfold is_encode in *; cbn [task run_id];
    destruct (task r) eqn:T; cbn [negb map task run_id];
    rewrite ?IH, ?T; reflexivity.
Qed.

(** X20.  A flush that runs the second effect on a text that is not
    blank starts the encoding of the trimmed text with the options of the
    render and registers it; one that runs the third effect starts
    [applyMaskAndTest] on the base image, the text as typed and the mask
    options of the render when there is a base image, and nothing
    otherwise: with no base image, or when the third effect does not run,
    the pending calls of [applyMaskAndTest] are the ones that were pending
    before; a flush that runs neither effect leaves the pending runs
    alone. *)
Theorem flush_starts_runs_on_render_values (w : World) :
  let s := state w in
  let w' := step w FlushEffects in
  (encode_changed s w = true -> JsString.trim (text s) <> [] ->
   In {| run_id := next w;
         task := makeQrDataUrl_call (JsString.trim (text s))
                   (value (options s));
         active := true |}
      (runs w')
   /\ encode_cleanup w' = Some (next w))
  /\ (mask_changed s w = true -> qrDataUrl s <> [] ->
      exists id,
        In {| run_id := id;
              task := applyMaskAndTest_call (qrDataUrl s) (text s)
                        (value (maskOptions s));
              active := true |}
           (runs w')
        /\ mask_cleanup w' = Some id)
  /\ (mask_changed s w = true -> qrDataUrl s = [] ->
      mask_cleanup w' = None)
  /\ (mask_changed s w = false \/ qrDataUrl s = [] ->
      mask_calls w' = mask_calls w)
  /\ (encode_changed s w = false -> mask_changed s w = false ->
      runs w' = runs w).
Proof.
  cbv zeta. cbn [step].
  unfold flushEffects, runEffects, permalink_effect, encode_effect,
    mask_effect, run_cleanup.
  split; [|split; [|split; [|split]]].
  - intros -> T.
    destruct (JsString.truthy (JsString.trim (text (state w)))) eqn:K;
      [|apply JsStringFacts.truthy_false in K; contradiction].
    repeat (cbn;
            match goal with
            | |- context [if ?b then _ else _] => destruct b
            | |- context [match ?x with Some _ => _ | None => _ end] =>
                destruct x
            end);
      cbn; split; try reflexivity; rewrite ?in_app_iff; cbn; tauto.
  - intros -> T.
    destruct (JsString.truthy (qrDataUrl (state w))) eqn:K;
      [|apply JsStringFacts.truthy_false in K; contradiction].
    repeat (cbn;
            match goal with
            | |- context [if ?b then _ else _] => destruct b
            | |- context [match ?x with Some _ => _ | None => _ end] =>
                destruct x
            end);
      cbn; eexists; (split; [|reflexivity]);
      rewrite ?in_app_iff; cbn; tauto.
  - intros -> T. rewrite T.
    repeat (cbn;
            match goal with
            | |- context [if ?b then _ else _] => destruct b
            | |- context [match ?x with Some _ => _ | None => _ end] =>
                destruct x
            end);
      reflexivity.
  - intros K.
    assert (M : (if mask_changed (state w) w
                 then JsString.truthy (qrDataUrl (state w)) else false)
                = false).
    { destruct K as [->| ->]; [reflexivity|].
      destruct (mask_changed (state w) w); reflexivity. }
    destruct (mask_changed (state w) w); [rewrite M|];
      repeat (cbn -[deactivate mask_calls];
              match goal with
              | |- context [if ?b then _ else _] => destruct b
              | |- context [match ?x with Some _ => _ | None => _ end] =>
                  destruct x
              end);
      unfold mask_calls; cbn -[deactivate];
      rewrite ?filter_app, ?map_app; cbn -[deactivate];
      rewrite ?app_nil_r, ?mask_calls_deactivate; reflexivity.
  - intros -> ->.
    repeat (cbn;
            match goal with
            | |- context [if ?b then _ else _] => destruct b
            | |- context [match ?x with Some _ => _ | None => _ end] =>
                destruct x
            end);
      reflexivity.
Qed.

(** ** Invariants of the state *)

Lemma run_cleanup_tasks (c : option nat) (w : World) (run : Run) :
  In run (runs (run_cleanup c w)) ->
  exists old, In old (runs w) /\ task old = task run.
Proof.
  destruct c as [id|]; cbn; [|intros Hin; exists run; auto].
  intros Hin. apply deactivate_In in Hin as (old & I & _ & T & _).
  exists old. auto.
Qed.

(** The calls a run of the effects can add to the pending ones. *)
Lemma runEffects_tasks (p e m : bool) (w : World) (run : Run) :
  In run (runs (runEffects p e m w)) ->
  (exists old, In old (runs w) /\ task old = task run)
  \/ (JsString.trim (text (state w)) <> []
      /\ task run = makeQrDataUrl_call (JsString.trim (text (state w)))
                      (value (options (state w))))
  \/ (qrDataUrl (state w) <> []
      /\ task run = applyMaskAndTest_call (qrDataUrl (state w))
                      (text (state w)) (value (maskOptions (state w)))).
Proof.
  unfold runEffects. cbn [with_deps runs].
  set (s := state w).
  set (w1 := if e then run_cleanup (encode_cleanup w) w else w).
  set (w2 := if m then run_cleanup (mask_cleanup w1) w1 else w1).
  set (w3 := if p then permalink_effect s w2 else w2).
  set (w4 := if e then encode_effect s w3 else w3).
  assert (T1 : forall r, In r (runs w1) ->
                 exists old, In old (runs w) /\ task old = task r).
  { intros r Hin. subst w1. destruct e;
      [apply run_cleanup_tasks in Hin; exact Hin | exists r; auto]. }
  assert (T2 : forall r, In r (runs w2) ->
                 exists old, In old (runs w) /\ task old = task r).
  { intros r Hin. subst w2. destruct m; [|apply T1, Hin].
    apply run_cleanup_tasks in Hin as (o1 & I1 & E1).
    destruct (T1 o1 I1) as (o0 & I0 & E0). exists o0. split; congruence. }
  assert (T3 : forall r, In r (runs w3) ->
                 exists old, In old (runs w) /\ task old = task r).
  { intros r Hin. subst w3. destruct p; [|apply T2, Hin].
    unfold permalink_effect in Hin. destruct window; apply T2, Hin. }
  assert (T4 : forall r, In r (runs w4) ->
                 (exists old, In old (runs w) /\ task old = task r)
                 \/ (JsString.trim (text s) <> []
                     /\ task r = makeQrDataUrl_call (JsString.trim (text s))
                                   (value (options s)))).
  { intros r Hin. subst w4. destruct e; [|left; apply T3, Hin].
    unfold encode_effect in Hin.
    destruct (JsString.truthy (JsString.trim (text s))) eqn:K;
      cbn in Hin; [|left; apply T3, Hin].
    apply in_app_or in Hin as [Hin|[<-|[]]]; [left; apply T3, Hin|].
    right. split; [|reflexivity].
    intros E. rewrite E in K. discriminate. }
  intros Hin. destruct m.
  - unfold mask_effect in Hin.
    destruct (JsString.truthy (qrDataUrl s)) eqn:K; cbn in Hin.
    + apply in_app_or in Hin as [Hin|[<-|[]]].
      * destruct (T4 run Hin) as [L|R]; auto.
      * right. right. split; [|reflexivity].
        intros E. rewrite E in K. discriminate.
    + destruct (T4 run Hin) as [L|R]; auto.
  - destruct (T4 run Hin) as [L|R]; auto.
Qed.

Lemma settle_runs (id : nat) (w : World) (run : Run) :
  In run (runs (settle id w)) -> In run (runs w).
Proof.
  unfold settle.
  destruct (find (fun r => Nat.eqb (run_id r) id) (runs w)) as [r|];
    [|auto].
  destruct (task r); cbn; intros Hin; apply filter_In in Hin; tauto.
Qed.

Lemma mount_mask_in_range :
  MaskOptions_in_range (value (maskOptions (state mount))).
Proof.
  unfold mount. cbn [state maskOptions]. destruct window as [location|].
  - cbn [value]. apply PermalinkMore.decoded_mask_in_range.
  - cbn. unfold MaskOptions_in_range. cbn. lia.
Qed.

Lemma in_range_step (w : World) (e : Event) :
  event_in_range e ->
  MaskOptions_in_range (value (maskOptions (state w)))
  /\ mask_calls_in_range w ->
  MaskOptions_in_range (value (maskOptions (state (step w e))))
  /\ mask_calls_in_range (step w e).
Proof.
  intros He [R C].
  assert (D : MaskOptions_in_range defaultMaskOptions)
    by (unfold MaskOptions_in_range; cbn; lia).
  assert (K : forall p e' m,
            MaskOptions_in_range
              (value (maskOptions (state (runEffects p e' m w))))
            /\ mask_calls_in_range (runEffects p e' m w)).
  { intros p e' m. split.
    - pose proof (runEffects_inputs p e' m w) as E. unfold inputs in E.
      replace (maskOptions (state (runEffects p e' m w)))
        with (maskOptions (state w)) by congruence.
      exact R.
    - intros run q t mo Hin T.
      destruct (runEffects_tasks p e' m w run Hin)
        as [(old & I & E)|[[_ E]|[_ E]]].
      + apply (C old q t mo I). congruence.
      + congruence.
      + rewrite E in T. injection T as _ _ <-. exact R. }
  destruct e; cbn [step event_in_range] in *;
    try (split; [|exact C]; cbn; first [exact R | exact D]);
    try (split; [|exact C]; destruct R as (R1 & R2 & R3 & R4);
         unfold MaskOptions_in_range; cbn; tauto).
  - apply K.
  - apply K.
  - split.
    + pose proof (settle_inputs id w) as E. unfold inputs in E.
      replace (maskOptions (state (settle id w)))
        with (maskOptions (state w)) by congruence.
      exact R.
    + intros run q t mo Hin. apply settle_runs in Hin. apply (C run q t mo Hin).
Qed.

(** X18.  As long as the range inputs report values between their [min]
    and [max], the mask options of the state stay within the ranges of the
    data model, and [applyMaskAndTest] is only ever called with such
    options. *)
Theorem mask_options_stay_in_range (events : list Event) :
  Forall event_in_range events ->
  MaskOptions_in_range (value (maskOptions (state (exec events))))
  /\ mask_calls_in_range (exec events).
Proof.
  unfold exec.
  assert (G : forall w,
            MaskOptions_in_range (value (maskOptions (state w)))
            /\ mask_calls_in_range w ->
            Forall event_in_range events ->
            MaskOptions_in_range
              (value (maskOptions (state (fold_left step events w))))
            /\ mask_calls_in_range (fold_left step events w)).
  { induction events as [|e events IH]; intros w P F; [exact P|].
    inversion F as [|? ? He F']; subst. cbn [fold_left].
    apply IH; [apply in_range_step; assumption | exact F']. }
  intros F. apply G; [|exact F].
  split; [apply mount_mask_in_range | intros run q t m []].
Qed.

Lemma provenance_step (w : World) (e : Event) :
  invariant w -> state_provenance (state w) ->
  state_provenance (state (step w e)).
Proof.
  intros I [Q M].
  assert (K : forall p e' m, state_provenance (state (runEffects p e' m w))).
  { intros p e' m. rewrite runEffects_state. unfold state_provenance.
    destruct e'; [|split; assumption].
    destruct (negb (JsString.truthy (JsString.trim (text (state w)))));
      cbn; split; auto. }
  destruct e; cbn [step]; try (split; assumption); try apply K.
  unfold settle.
  destruct (find (fun r => Nat.eqb (run_id r) id) (runs w)) as [run|] eqn:F;
    [|split; assumption].
  apply find_some in F as [Hin _].
  destruct (task run) as [nt o|q t m] eqn:T; cbn.
  - destruct (encoder_input_trimmed _ I run nt o Hin T) as (t & -> & N).
    unfold encode_settled.
    destruct (Mask.makeQrDataUrl (JsString.trim t) o) as [dataUrl|] eqn:E;
      destruct (active run); cbn; try (split; assumption).
    + split; [|exact M]. right. exists t, o. split; assumption.
    + split; [left; reflexivity | right; right; reflexivity].
  - unfold mask_settled.
    destruct (Mask.applyMaskAndTest q t m); destruct (active run); cbn;
      split; assumption.
Qed.

(** X19.  In every state the base image is either absent or what the
    encoder gave for a trimmed text that is not empty, and the advisory is
    either absent or one of the two messages of the second effect. *)
Theorem base_image_and_advisory_provenance (events : list Event) :
  state_provenance (state (exec events)).
Proof.
  unfold exec.
  assert (G : forall w, invariant w -> state_provenance (state w) ->
                        state_provenance (state (fold_left step events w))).
  { induction events as [|e events IH]; intros w I P; [exact P|].
    cbn [fold_left].
    apply IH; [apply invariant_step, I | apply provenance_step; assumption]. }
  apply G; [apply invariant_mount|].
  split; cbn; left; reflexivity.
Qed.

(** The calls of [applyMaskAndTest] are made on base images of the state,
    so on what the encoder returned. *)
Lemma calls_on_encoded_step (w : World) (e : Event) :
  state_provenance (state w) -> mask_calls_on_encoded w ->
  mask_calls_on_encoded (step w e).
Proof.
  intros [Q _] C.
  assert (K : forall p e' m, mask_calls_on_encoded (runEffects p e' m w)).
  { intros p e' m run q t mo Hin T.
    destruct (runEffects_tasks p e' m w run Hin)
      as [(old & I & E)|[[_ E]|[N E]]].
    - apply (C old q t mo I). congruence.
    - congruence.
    - rewrite E in T. injection T as <- _ _.
      destruct Q as [Q|Q]; [contradiction | exact Q]. }
  destruct e; cbn [step]; try exact C; try apply K.
  intros run q t mo Hin. apply settle_runs in Hin. apply (C run q t mo Hin).
Qed.

Lemma readable_step (w : World) (e : Event) :
  mask_calls_on_encoded w -> readable_provenance (state w) ->
  readable_provenance (state (step w e)).
Proof.
  intros C R.
  assert (K : forall p e' m, readable_provenance (state (runEffects p e' m w))).
  { intros p e' m. rewrite runEffects_state.
    destruct e'; [|exact R].
    destruct (negb (JsString.truthy (JsString.trim (text (state w)))));
      [intros D; discriminate D | exact R]. }
  destruct e; cbn [step]; try exact R; try apply K.
  unfold settle.
  destruct (find (fun r => Nat.eqb (run_id r) id) (runs w)) as [run|] eqn:F;
    [|exact R].
  apply find_some in F as [Hin _].
  destruct (task run) as [nt o|q t m] eqn:T; cbn [with_state state].
  - unfold encode_settled.
    destruct (Mask.makeQrDataUrl nt o); destruct (active run); cbn;
      first [exact R | intros D; discriminate D].
  - unfold mask_settled.
    destruct (Mask.applyMaskAndTest q t m) as [result|] eqn:E;
      destruct (active run); cbn;
      try exact R; try (intros D; discriminate D).
    unfold readable_provenance. cbn [decodeStatus maskedDataUrl].
    intros D.
    destruct (C run q t m Hin T) as (t' & o & N & Q).
    unfold Mask.applyMaskAndTest in E.
    destruct (loadImage q) as [image|] eqn:L; [|discriminate].
    destruct getContext_2d eqn:G; [|discriminate].
    cbn [negb] in E. injection E as <-.
    cbn [Mask.decodeStatus Mask.maskedDataUrl] in *.
    apply MaskFacts.classify_success_iff in D as [Nt Dt].
    exists q, t, m, image, t', o. repeat split; assumption.
Qed.

(** X10.  In every state a status [success], the "Readable" line of the
    page, comes from a fulfilled [applyMaskAndTest]: the masked image of
    the state is the export of a canvas on which the decoder read the
    trimmed, non-empty text of that call, painted over an image that loaded
    from what the encoder returned. *)
Theorem readable_status_provenance (events : list Event) :
  readable_provenance (state (exec events)).
Proof.
  unfold exec.
  assert (G : forall w,
            invariant w -> state_provenance (state w) ->
            mask_calls_on_encoded w -> readable_provenance (state w) ->
            readable_provenance (state (fold_left step events w))).
  { induction events as [|e events IH]; intros w I P C R; [exact R|].
    cbn [fold_left].
    apply IH;
      [apply invariant_step, I | apply provenance_step; assumption
      | apply calls_on_encoded_step; assumption
      | apply readable_step; assumption]. }
  apply G.
  - apply invariant_mount.
  - split; cbn; left; reflexivity.
  - intros run q t m [].
  - intros D. discriminate D.
Qed.

(** ** The address bar *)

Lemma runEffects_next (p e m : bool) (w : World) :
  (next w <= next (runEffects p e m w))%nat.
Proof.
  unfold runEffects, permalink_effect, encode_effect, mask_effect,
    run_cleanup.
  repeat (cbn;
          match goal with
          | |- context [if ?b then _ else _] => destruct b
          | |- context [match ?x with Some _ => _ | None => _ end] =>
              destruct x
          end);
    cbn; lia.
Qed.

Lemma runEffects_address (p e m : bool) (w : World) :
  address (runEffects p e m w)
  = if p then
      match window with
      | Some _ =>
          Some (Permalink.createPermalink window (text (state w))
                  (value (options (state w)))
                  (value (maskOptions (state w))))
      | None => address w
      end
    else address w.
Proof.
  unfold runEffects, permalink_effect, encode_effect, mask_effect,
    run_cleanup.
  repeat (cbn;
          match goal with
          | |- context [if ?b then _ else _] => destruct b
          | |- context [match ?x with Some _ => _ | None => _ end] =>
              destruct x
          end);
    reflexivity.
Qed.

Lemma permalink_unchanged (s : State) (w : World) :
  permalink_changed s w = false ->
  permalink_deps w
  = Some (addr (maskOptions s), addr (options s), text s).
Proof.
  unfold permalink_changed.
  destruct (permalink_deps w) as [[[ma oa] t]|]; [|discriminate].
  intros E. apply negb_false_iff in E.
  apply andb_true_iff in E as [E Et]. apply andb_true_iff in E as [Em Eo].
  apply Nat.eqb_eq in Em, Eo. apply JsStringFacts.eqb_eq in Et.
  congruence.
Qed.

(** Running the effects keeps the address in step with what the first
    effect saw, provided the first effect runs whenever its dependencies
    changed. *)
Lemma address_runEffects (p e m : bool) (w : World) :
  window <> None ->
  (p = false -> permalink_changed (state w) w = false) ->
  objects_ok w /\ address_ok w ->
  objects_ok (runEffects p e m w) /\ address_ok (runEffects p e m w).
Proof.
  intros Hw Hp [(O1 & O2 & O3 & O4 & O5) A].
  pose proof (runEffects_inputs p e m w) as E. unfold inputs in E.
  pose proof (runEffects_next p e m w) as N.
  destruct (runEffects_deps p e m w) as (Dp & _ & _).
  pose proof (runEffects_address p e m w) as Ad.
  set (w' := runEffects p e m w) in *. clearbody w'.
  assert (Et : text (state w') = text (state w)) by congruence.
  assert (Eo : options (state w') = options (state w)) by congruence.
  assert (Em : maskOptions (state w') = maskOptions (state w))
    by congruence.
  split.
  - unfold objects_ok. rewrite Eo, Em. repeat split; auto; lia.
  - unfold address_ok. rewrite Dp, Eo, Em.
    destruct p.
    + destruct window as [location|]; [|congruence].
      exists (value (options (state w))), (value (maskOptions (state w))).
      repeat split; auto; lia.
    + specialize (Hp eq_refl). apply permalink_unchanged in Hp.
      unfold address_ok in A. rewrite Hp in A.
      destruct A as (o & mo & A1 & A2 & A3 & A4 & A5 & A6 & A7).
      exists o, mo. rewrite Ad, A1.
      repeat split; auto; lia.
Qed.

Lemma address_mask_update (w : World) (f : MaskOptions -> MaskOptions) :
  window <> None ->
  objects_ok w /\ address_ok w ->
  objects_ok (update_maskOptions f w)
  /\ address_ok (update_maskOptions f w).
Proof.
  intros Hw [(O1 & O2 & O3 & O4 & O5) A].
  split; [unfold objects_ok; cbn; repeat split; auto; lia|].
  unfold address_ok in *. cbn.
  destruct (permalink_deps w) as [[[ma oa] t]|]; [|exact I].
  destruct A as (o & mo & A1 & A2 & A3 & A4 & A5 & A6 & A7).
  exists o, mo. repeat split; auto; lia.
Qed.

Lemma address_step (w : World) (e : Event) :
  window <> None ->
  objects_ok w /\ address_ok w ->
  objects_ok (step w e) /\ address_ok (step w e).
Proof.
  intros Hw [O A].
  destruct e; cbn [step];
    try (apply address_runEffects; [exact Hw | | split; assumption]).
  - (* ChangeText *)
    split; [exact O|].
    unfold address_ok in *. cbn.
    destruct (permalink_deps w) as [[[ma oa] t]|]; [|exact I]. exact A.
  - (* ChangeErrorLevel *)
    destruct O as (O1 & O2 & O3 & O4 & O5).
    split; [unfold objects_ok; cbn; repeat split; auto; lia|].
    unfold address_ok in *. cbn.
    destruct (permalink_deps w) as [[[ma oa] t]|]; [|exact I].
    destruct A as (o & mo & A1 & A2 & A3 & A4 & A5 & A6 & A7).
    exists o, mo. repeat split; auto; lia.
  - apply (address_mask_update w); [exact Hw | split; assumption].
  - apply (address_mask_update w); [exact Hw | split; assumption].
  - apply (address_mask_update w); [exact Hw | split; assumption].
  - apply (address_mask_update w); [exact Hw | split; assumption].
  - (* ResetOptions *)
    destruct O as (O1 & O2 & O3 & O4 & O5).
    split; [unfold objects_ok; cbn; repeat split; auto; lia|].
    unfold address_ok in *. cbn.
    destruct (permalink_deps w) as [[[ma oa] t]|]; [|exact I].
    destruct A as (o & mo & A1 & A2 & A3 & A4 & A5 & A6 & A7).
    exists o, mo. repeat split; auto.
  - (* FlushEffects *) auto.
  - (* StrictModeRemount *) discriminate.
  - (* Settle *)
    pose proof (settle_inputs id w) as E. unfold inputs in E.
    assert (S : next (settle id w) = next w
                /\ permalink_deps (settle id w) = permalink_deps w
                /\ address (settle id w) = address w).
    { unfold settle.
      destruct (find (fun r => Nat.eqb (run_id r) id) (runs w)) as [r|];
        [destruct (task r)|]; repeat split. }
    destruct S as (S1 & S2 & S3).
    set (w' := settle id w) in *. clearbody w'.
    assert (Eo : options (state w') = options (state w)) by congruence.
    assert (Em : maskOptions (state w') = maskOptions (state w))
      by congruence.
    unfold objects_ok, address_ok in *. rewrite S1, S2, S3, Eo, Em.
    split; assumption.
Qed.

Lemma address_exec (events : list Event) :
  window <> None ->
  objects_ok (exec events) /\ address_ok (exec events).
Proof.
  intros Hw. unfold exec.
  assert (G : forall w, objects_ok w /\ address_ok w ->
                        objects_ok (fold_left step events w)
                        /\ address_ok (fold_left step events w)).
  { induction events as [|e events IH]; intros w P; [exact P|].
    cbn [fold_left]. apply IH, address_step; assumption. }
  apply G. split.
  - unfold objects_ok, mount. destruct window; cbn;
      repeat split; auto; try lia; discriminate.
  - exact I.
Qed.

(** X17.  In a browser, after every flush of the effects the address is
    the permalink of the text, the options and the mask options of the
    state; and when the text is well formed and the mask options are in
    range, reading that address gives exactly those three back. *)
Theorem address_follows_the_state
    (events : list Event) (location : Permalink.Location) :
  window = Some location ->
  let w := step (exec events) FlushEffects in
  let s := state w in
  address w
  = Some (Permalink.createPermalink window (text s) (value (options s))
            (value (maskOptions s)))
  /\ (Encoding.well_formed (text s) = true ->
      MaskOptions_in_range (value (maskOptions s)) ->
      forall path,
        option_map
          (fun query =>
             Permalink.parsePermalinkState
               (Some {| Permalink.search := query;
                        Permalink.pathname := path |}))
          (address w)
        = Some {| Permalink.text := text s;
                  Permalink.options := value (options s);
                  Permalink.maskOptions := value (maskOptions s) |}).
Proof.
  intros Hw. cbv zeta.
  assert (Hn : window <> None) by congruence.
  assert (A : address (step (exec events) FlushEffects)
              = Some (Permalink.createPermalink window
                        (text (state (step (exec events) FlushEffects)))
                        (value (options
                                  (state (step (exec events) FlushEffects))))
                        (value (maskOptions
                                  (state (step (exec events) FlushEffects)))))).
  { destruct (address_step (exec events) FlushEffects Hn
                (address_exec events Hn)) as [_ K].
    cbn [step] in *. unfold flushEffects in *.
    destruct (runEffects_deps
                (permalink_changed (state (exec events)) (exec events))
                (encode_changed (state (exec events)) (exec events))
                (mask_changed (state (exec events)) (exec events))
                (exec events)) as (Dp & _ & _).
    pose proof (runEffects_inputs
                  (permalink_changed (state (exec events)) (exec events))
                  (encode_changed (state (exec events)) (exec events))
                  (mask_changed (state (exec events)) (exec events))
                  (exec events)) as E.
    unfold inputs in E.
    set (w' := runEffects _ _ _ (exec events)) in *. clearbody w'.
    unfold address_ok in K. rewrite Dp in K.
    destruct K as (o & mo & K1 & _ & _ & K4 & K5 & _).
    assert (Et : text (state w') = text (state (exec events)))
      by congruence.
    assert (Eo : options (state w') = options (state (exec events)))
      by congruence.
    assert (Em : maskOptions (state w') = maskOptions (state (exec events)))
      by congruence.
    rewrite K1, Et, K4, K5 by congruence. reflexivity. }
  split; [exact A|].
  intros W R path. rewrite A. cbn [option_map]. f_equal. rewrite Hw.
  pose proof (PermalinkMore.decode_encode_usv location path _
                (value (options (state (step (exec events) FlushEffects))))
                _ (EncodingMore.well_formed_is_string _ W) R) as D.
  unfold PermalinkProps.decode_encode in D.
  cbn [Permalink.text Permalink.options Permalink.maskOptions] in D.
  rewrite D. rewrite (EncodingFacts.to_usv_well_formed _ W). reflexivity.
Qed.

End WithPlatform.

(** ** Instances on the stand-in libraries *)

Lemma blank_text_clears_the_pipeline_witness :
  JsString.trim
    (text (state (@exec sample_platform [FlushEffects; ChangeText (js "  ")])))
  = []
  /\ qrDataUrl
       (state (@step sample_platform
                 (@exec sample_platform [FlushEffects; ChangeText (js "  ")])
                 FlushEffects))
     = [].
Proof.
  split; [vm_compute; reflexivity|].
  apply (@blank_text_clears_the_pipeline sample_platform
           [FlushEffects; ChangeText (js "  ")]);
    vm_compute; reflexivity.
Defined.

Lemma live_mask_run_sets_image_and_status_witness :
  In {| run_id := 5;
        task := applyMaskAndTest_call (js "data:hi") (js "hi")
                  {| sizePercent := 0; centerXPercent := 0;
                     centerYPercent := 0; opacityPercent := 10 |};
        active := true |}
     (runs (@exec sample_platform [FlushEffects; Settle 4; FlushEffects]))
  /\ decodeStatus
       (state (@step sample_platform
                 (@exec sample_platform
                    [FlushEffects; Settle 4; FlushEffects])
                 (Settle 5)))
     = failed.
Proof.
  assert (Hin : In {| run_id := 5;
                      task := applyMaskAndTest_call (js "data:hi") (js "hi")
                                {| sizePercent := 0; centerXPercent := 0;
                                   centerYPercent := 0;
                                   opacityPercent := 10 |};
                      active := true |}
                   (runs (@exec sample_platform
                            [FlushEffects; Settle 4; FlushEffects])))
    by (vm_compute; left; reflexivity).
  split; [exact Hin|].
  exact (proj2 (proj1 (@live_mask_run_sets_image_and_status sample_platform
                         [FlushEffects; Settle 4; FlushEffects] _
                         (js "data:hi") (js "hi")
                         {| sizePercent := 0; centerXPercent := 0;
                            centerYPercent := 0; opacityPercent := 10 |}
                         Hin eq_refl eq_refl))).
Defined.

Lemma at_most_one_live_run_per_effect_witness :
  In {| run_id := 5;
        task := makeQrDataUrl_call (js "yo") {| errorLevel := Level.M |};
        active := true |}
     (runs (@exec sample_platform two_edits))
  /\ {| run_id := 5;
        task := makeQrDataUrl_call (js "yo") {| errorLevel := Level.M |};
        active := true |}
     = {| run_id := 5;
          task := makeQrDataUrl_call (js "yo") {| errorLevel := Level.M |};
          active := true |}.
Proof.
  assert (Hin : In {| run_id := 5;
                      task := makeQrDataUrl_call (js "yo")
                                {| errorLevel := Level.M |};
                      active := true |}
                   (runs (@exec sample_platform two_edits)))
    by (vm_compute; right; left; reflexivity).
  split; [exact Hin|].
  exact (@at_most_one_live_run_per_effect sample_platform two_edits _ _
           Hin Hin eq_refl eq_refl eq_refl).
Defined.

Lemma address_follows_the_state_witness :
  @window sample_platform
  = Some {| Permalink.search := js "?t=hi"; Permalink.pathname := js "/" |}
  /\ address (@step sample_platform (@exec sample_platform []) FlushEffects)
     = Some (Permalink.createPermalink (@window sample_platform)
               (text (state (@step sample_platform
                               (@exec sample_platform []) FlushEffects)))
               (value (options
                         (state (@step sample_platform
                                   (@exec sample_platform [])
                                   FlushEffects))))
               (value (maskOptions
                         (state (@step sample_platform
                                   (@exec sample_platform [])
                                   FlushEffects))))).
Proof.
  split; [reflexivity|].
  exact (proj1 (@address_follows_the_state sample_platform []
                  {| Permalink.search := js "?t=hi";
                     Permalink.pathname := js "/" |} eq_refl)).
Defined.

Lemma mask_options_stay_in_range_witness :
  Forall event_in_range [ChangeSize 30; FlushEffects; ChangeOpacity 55]
  /\ MaskOptions_in_range
       (value (maskOptions
                 (state (@exec sample_platform
                           [ChangeSize 30; FlushEffects; ChangeOpacity 55])))).
Proof.
  assert (F : Forall event_in_range
                [ChangeSize 30; FlushEffects; ChangeOpacity 55])
    by (repeat constructor; cbn; lia).
  split; [exact F|].
  exact (proj1 (@mask_options_stay_in_range sample_platform _ F)).
Defined.

End AppMore.
